(** * Internship tracker: the dashboard's view-state derivation and its shell

    A shallow embedding of [src/pages/DashboardPage.tsx] and
    [src/types/internship.ts]:

    - the snapshot mapping run by the [onSnapshot] callback,
    - the derived data computed on every render ([totalCount],
      [statusCounts], [filteredInternships], [sortedInternships]),
    - the handlers [handleSubmit], [handleDelete], [handleEdit], [resetForm]
      and the subscription effect, as transitions of the component state,
    - what the list area renders, and the routes of [App] with the redirects
      of [RequireAuth] and [AuthPage].

    The derived data are embedded twice.  Once on records of the declared
    types ([Internship]), with the string functions of [JsString], which
    are those of JavaScript on ASCII strings: [toLowerCase] folds the letters
    A-Z, [trim] strips the six ASCII white space characters, and characters
    with a code above 127 are left untouched by both.  And once as the
    statements run ([Rt], [Arrays]): on the objects the snapshot callback
    builds, which hold whatever the stored document holds, with a thrown
    [TypeError] as a result of its own and with [trim], [toLowerCase],
    [localeCompare] and the conversion to string as parameters.  The two
    agree on a cache of typed records ([typedCache]). *)

From Stdlib Require Import ZArith Lia Bool Ascii.
From stdpp Require Import base option list sorting gmap strings.

Local Open Scope Z_scope.

(* ===================================================================== *)
(** ** JavaScript strings *)
(* ===================================================================== *)

Module JsString.

Definition is_upper (c : ascii) : bool :=
  let n := N_of_ascii c in ((65 <=? n) && (n <=? 90))%N.

Definition lower_char (c : ascii) : ascii :=
  if is_upper c then ascii_of_N (N_of_ascii c + 32) else c.

(** [String.prototype.toLowerCase] on ASCII strings: the letters A-Z are
    folded, character by character. *)
Fixpoint toLowerCase (s : string) : string :=
  match s with
  | EmptyString => EmptyString
  | String c s' => String (lower_char c) (toLowerCase s')
  end.

(** White space in the sense of [String.prototype.trim], as far as ASCII
    goes: tab, line feed, vertical tab, form feed, carriage return and
    space.  (Beyond ASCII, [trim] also strips the no-break space and the
    other Unicode space separators.) *)
Definition is_space (c : ascii) : bool :=
  let n := N_of_ascii c in ((n =? 32) || ((9 <=? n) && (n <=? 13)))%N.

Fixpoint trimStart (s : string) : string :=
  match s with
  | EmptyString => EmptyString
  | String c s' => if is_space c then trimStart s' else s
  end.

Fixpoint trimEnd (s : string) : string :=
  match s with
  | EmptyString => EmptyString
  | String c s' =>
      match trimEnd s' with
      | EmptyString => if is_space c then EmptyString else String c EmptyString
      | t => String c t
      end
  end.

(** [String.prototype.trim] on ASCII strings. *)
Definition trim (s : string) : string := trimEnd (trimStart s).

Fixpoint startsWith (s p : string) {struct p} : bool :=
  match p, s with
  | EmptyString, _ => true
  | String _ _, EmptyString => false
  | String a p', String b s' => Ascii.eqb a b && startsWith s' p'
  end.

(** [String.prototype.includes]: does [needle] occur in [s]? *)
Fixpoint includes (s needle : string) : bool :=
  startsWith s needle ||
  match s with
  | EmptyString => false
  | String _ s' => includes s' needle
  end.

(** [s === ""], and the truthiness of a string ([!s] is its negation). *)
Definition is_empty (s : string) : bool :=
  match s with EmptyString => true | String _ _ => false end.

Definition truthy (s : string) : bool := negb (is_empty s).

End JsString.

Import JsString.

(* ===================================================================== *)
(** ** Values stored in a document *)
(* ===================================================================== *)

(** [Timestamp] of firebase/firestore, observed through
    [toDate().getTime()]: milliseconds since the Unix epoch (negative before
    1970). *)
Record Timestamp := { millis : Z }.

(** What a field of [DocumentData] can hold as far as this program looks at
    it.  [JsUndefined] is what reading an absent field gives. *)
Inductive JsVal :=
| JsUndefined
| JsNull
| JsBool (b : bool)
| JsNum (n : Z)
| JsStr (s : string)
| JsTime (t : Timestamp)
| JsServerTimestamp. (* the sentinel returned by [serverTimestamp()] *)

Global Instance Timestamp_eq_dec : EqDecision Timestamp.
Proof. solve_decision. Defined.

Global Instance JsVal_eq_dec : EqDecision JsVal.
Proof. solve_decision. Defined.

(** [v ?? d] *)
Definition nullish (v d : JsVal) : JsVal :=
  match v with
  | JsUndefined | JsNull => d
  | _ => v
  end.

(** [DocumentData]: a JavaScript object used as a map from field names. *)
Abbreviation DocumentData := (gmap string JsVal).

(** [data.f] *)
Definition field (data : DocumentData) (f : string) : JsVal :=
  default JsUndefined (data !! f).

(** A [QueryDocumentSnapshot]: [docSnap.id] and [docSnap.data()]. *)
Record DocSnap := { snap_id : string; snap_data : DocumentData }.

(** The object literal built for each document by the [onSnapshot] callback.
    The fields are what the expressions evaluate to at run time: the
    annotation [Internship[]] and the cast [as InternshipStatus] are erased by
    the compiler. *)
Record Item := {
  item_id : string;
  item_company : JsVal;
  item_role : JsVal;
  item_status : JsVal;
  item_notes : JsVal;
  item_createdAt : JsVal
}.

Definition mapDoc (docSnap : DocSnap) : Item :=
  let data := snap_data docSnap in
  {| item_id := snap_id docSnap;
     item_company := nullish (field data "company") (JsStr "");
     item_role := nullish (field data "role") (JsStr "");
     item_status := nullish (field data "status") (JsStr "applied");
     item_notes := nullish (field data "notes") (JsStr "");
     item_createdAt := nullish (field data "createdAt") JsNull |}.

(** [snapshot.docs.map(...)] *)
Definition mapSnapshot (docs : list DocSnap) : list Item := map mapDoc docs.

(* ===================================================================== *)
(** ** The record model ([types/internship.ts]) *)
(* ===================================================================== *)

Inductive InternshipStatus :=
| applied
| online_assessment
| interview
| offer
| rejected.

Global Instance InternshipStatus_eq_dec : EqDecision InternshipStatus.
Proof. solve_decision. Defined.

(** The string literal each member is at run time. *)
Definition status_string (s : InternshipStatus) : string :=
  match s with
  | applied => "applied"
  | online_assessment => "online_assessment"
  | interview => "interview"
  | offer => "offer"
  | rejected => "rejected"
  end.

Definition all_statuses : list InternshipStatus :=
  [applied; online_assessment; interview; offer; rejected].

(** Is a run-time value one of the five string literals, and which? *)
Definition status_of_val (v : JsVal) : option InternshipStatus :=
  match v with
  | JsStr s => find (fun m => String.eqb (status_string m) s) all_statuses
  | _ => None
  end.

Definition is_InternshipStatus (v : JsVal) : Prop := is_Some (status_of_val v).

(** [interface Internship]: a record of the declared types.  The cache holds
    such records only when the stored documents have these types ([typed]
    below); the run-time derivation [Rt] makes no such assumption. *)
Record Internship := {
  id : string;
  company : string;
  role : string;
  status : InternshipStatus;
  notes : option string;          (* [notes?: string] *)
  createdAt : option Timestamp    (* [createdAt?: Timestamp | null] *)
}.

Global Instance Internship_eq_dec : EqDecision Internship.
Proof. solve_decision. Defined.

(** The interface [Internship] read as a check on a run-time object: the
    record an [Item] denotes when every field has the declared type. *)
Definition typed (it : Item) : option Internship :=
  c ← match item_company it with JsStr s => Some s | _ => None end;
  r ← match item_role it with JsStr s => Some s | _ => None end;
  s ← status_of_val (item_status it);
  n ← match item_notes it with
      | JsUndefined => Some None
      | JsStr s => Some (Some s)
      | _ => None
      end;
  t ← match item_createdAt it with
      | JsUndefined | JsNull => Some None
      | JsTime t => Some (Some t)
      | _ => None
      end;
  Some {| id := item_id it; company := c; role := r; status := s;
          notes := n; createdAt := t |}.

(* ===================================================================== *)
(** ** Derived data on typed records: counts, filter, search, sort *)
(* ===================================================================== *)

Record StatusOption := { value : InternshipStatus; label : string }.

Definition STATUS_OPTIONS : list StatusOption :=
  [ {| value := applied; label := "Applied" |};
    {| value := online_assessment; label := "Online Assessment" |};
    {| value := interview; label := "Interview" |};
    {| value := offer; label := "Offer" |};
    {| value := rejected; label := "Rejected" |} ].

(** [type StatusFilter = "all" | InternshipStatus] *)
Inductive StatusFilter :=
| all
| only (s : InternshipStatus).

Inductive SortOption :=
| newest
| oldest
| company_az
| company_za.

Definition totalCount (internships : list Internship) : nat :=
  length internships.

(** [internships.filter((i) => i.status === opt.value).length] *)
Definition countWithStatus (internships : list Internship)
    (s : InternshipStatus) : nat :=
  length (List.filter (fun i => bool_decide (status i = s)) internships).

(** [STATUS_OPTIONS.reduce(..., {})]: the accumulator is an object keyed by
    the status literals. *)
Definition statusCounts (internships : list Internship) : gmap string nat :=
  foldl (fun acc opt =>
           <[status_string (value opt) := countWithStatus internships (value opt)]> acc)
        ∅ STATUS_OPTIONS.

(** [statusCounts[opt.value] ?? 0], the badge of a filter chip. *)
Definition badge (counts : gmap string nat) (s : InternshipStatus) : nat :=
  default 0%nat (counts !! status_string s).

Definition normalizedSearch (searchTerm : string) : string :=
  toLowerCase (trim searchTerm).

Definition matchesStatus (statusFilter : StatusFilter) (item : Internship) : bool :=
  match statusFilter with
  | all => true
  | only f => bool_decide (status item = f)
  end.

Definition haystack (item : Internship) : string :=
  toLowerCase (company item +:+ " " +:+ role item +:+ " " +:+ default "" (notes item)).

Definition matchesSearch (searchTerm : string) (item : Internship) : bool :=
  is_empty (normalizedSearch searchTerm)
  || includes (haystack item) (normalizedSearch searchTerm).

Definition filteredInternships (internships : list Internship)
    (statusFilter : StatusFilter) (searchTerm : string) : list Internship :=
  List.filter (fun item => matchesStatus statusFilter item && matchesSearch searchTerm item)
              internships.

(** [Array.prototype.sort] with a comparator.  The sort is stable, and for a
    consistent comparator its result is the unique stable arrangement in
    which no element is followed by one that compares below it; a stable
    insertion sort computes that arrangement. *)
Section ArraySort.
Context {A : Type} (compareFn : A → A → Z).

Fixpoint sort_insert (x : A) (l : list A) : list A :=
  match l with
  | [] => [x]
  | y :: l' => if compareFn x y <=? 0 then x :: l else y :: sort_insert x l'
  end.

Definition array_sort (l : list A) : list A := foldr sort_insert [] l.
End ArraySort.

(** Helper to get a numeric timestamp for sorting; newer = bigger. *)
Definition getTime (x : Internship) : Z :=
  match createdAt x with
  | Some t => millis t
  | None => 0
  end.

Section Derivation.
(** [String.prototype.localeCompare] of the host, a number whose sign
    orders the two strings. *)
Variable localeCompare : string → string → Z.

(** The comparator handed to [sort]. *)
Definition compareFn (sortOption : SortOption) (a b : Internship) : Z :=
  match sortOption with
  | newest => getTime b - getTime a
  | oldest => getTime a - getTime b
  | company_az =>
      localeCompare (toLowerCase (company a)) (toLowerCase (company b))
  | company_za =>
      localeCompare (toLowerCase (company b)) (toLowerCase (company a))
  end.

Definition sortedInternships (filtered : list Internship)
    (sortOption : SortOption) : list Internship :=
  array_sort (compareFn sortOption) filtered.

(** Everything a render derives from the cache and the three selections. *)
Record ViewState := {
  view_total : nat;
  view_counts : gmap string nat;
  view_list : list Internship
}.

Definition derive (internships : list Internship) (statusFilter : StatusFilter)
    (searchTerm : string) (sortOption : SortOption) : ViewState :=
  {| view_total := totalCount internships;
     view_counts := statusCounts internships;
     view_list :=
       sortedInternships (filteredInternships internships statusFilter searchTerm)
                         sortOption |}.
End Derivation.

(** A collation to run the derivation with: code unit order. *)
Fixpoint codeUnitCompare (a b : string) : Z :=
  match a, b with
  | EmptyString, EmptyString => 0
  | EmptyString, String _ _ => -1
  | String _ _, EmptyString => 1
  | String x a', String y b' =>
      let d := Z.of_N (N_of_ascii x) - Z.of_N (N_of_ascii y) in
      if d =? 0 then codeUnitCompare a' b' else d
  end.

(* ===================================================================== *)
(** ** The derivation at run time, on the cache as the callback fills it *)
(* ===================================================================== *)

(** [Array.prototype.sort] with a comparator that may throw ([None]): the
    arrangement of [array_sort], with the exception passed on.  An array of
    fewer than two elements is returned without a call of the comparator. *)
Section ThrowingSort.
Context {A : Type} (compareFn : A → A → option Z).

Fixpoint sort_insert_throwing (x : A) (l : list A) : option (list A) :=
  match l with
  | [] => Some [x]
  | y :: l' =>
      c ← compareFn x y;
      if c <=? 0 then Some (x :: l)
      else r ← sort_insert_throwing x l'; Some (y :: r)
  end.

Fixpoint array_sort_throwing (l : list A) : option (list A) :=
  match l with
  | [] => Some []
  | x :: l' => sorted ← array_sort_throwing l'; sort_insert_throwing x sorted
  end.
End ThrowingSort.

(** The statements of the component body that derive the view, read as they
    run: the elements of [internships] are the objects built by the snapshot
    callback ([Item], any value in any field), the type annotations being
    erased.  [None] is a thrown [TypeError].  The library functions are
    parameters: [hostTrim] and [hostLower] stand for [String.prototype.trim]
    and [String.prototype.toLowerCase], [localeCompare] for
    [String.prototype.localeCompare], and [stringOf] for the conversion to
    string that [+] applies to an operand that is not a string. *)
Module Rt.
Section Host.
Variables hostTrim hostLower : string → string.
Variable localeCompare : string → string → Z.
Variable stringOf : JsVal → string.

(** [v === s] for a string literal [s] *)
Definition strictEq (v : JsVal) (s : string) : bool :=
  match v with
  | JsStr t => String.eqb t s
  | _ => false
  end.

(** The truthiness of a value. *)
Definition truthy (v : JsVal) : bool :=
  match v with
  | JsUndefined | JsNull => false
  | JsBool b => b
  | JsNum n => negb (n =? 0)
  | JsStr s => negb (is_empty s)
  | JsTime _ | JsServerTimestamp => true
  end.

(** An operand of [+] next to a string. *)
Definition toString (v : JsVal) : string :=
  match v with
  | JsStr s => s
  | _ => stringOf v
  end.

Definition totalCount (internships : list Item) : nat := length internships.

(** [internships.filter((i) => i.status === opt.value).length] *)
Definition countWithStatus (internships : list Item) (s : InternshipStatus) : nat :=
  length (List.filter (λ i, strictEq (item_status i) (status_string s)) internships).

Definition statusCounts (internships : list Item) : gmap string nat :=
  foldl (λ acc opt,
           <[status_string (value opt) := countWithStatus internships (value opt)]> acc)
        ∅ STATUS_OPTIONS.

Definition normalizedSearch (searchTerm : string) : string :=
  hostLower (hostTrim searchTerm).

Definition matchesStatus (statusFilter : StatusFilter) (item : Item) : bool :=
  match statusFilter with
  | all => true
  | only f => strictEq (item_status item) (status_string f)
  end.

(** [item.company + " " + item.role + " " + (item.notes ?? "")] *)
Definition searchedText (item : Item) : string :=
  toString (item_company item) +:+ " " +:+ toString (item_role item) +:+ " "
  +:+ toString (nullish (item_notes item) (JsStr "")).

Definition haystack (item : Item) : string := hostLower (searchedText item).

Definition matchesSearch (searchTerm : string) (item : Item) : bool :=
  is_empty (normalizedSearch searchTerm)
  || includes (haystack item) (normalizedSearch searchTerm).

Definition filteredInternships (internships : list Item)
    (statusFilter : StatusFilter) (searchTerm : string) : list Item :=
  List.filter (λ item, matchesStatus statusFilter item && matchesSearch searchTerm item)
              internships.

(** [getTime]: [x.createdAt && "toDate" in x.createdAt] is false for a falsy
    value, true for a [Timestamp], false for an object without [toDate], and
    throws for a truthy primitive, [in] wanting an object on its right. *)
Definition getTime (x : Item) : option Z :=
  match item_createdAt x with
  | JsTime t => Some (millis t)
  | JsServerTimestamp => Some 0
  | v => if truthy v then None else Some 0
  end.

(** [x.company.toLowerCase()]: only a string has the method. *)
Definition lowerCompany (x : Item) : option string :=
  match item_company x with
  | JsStr s => Some (hostLower s)
  | _ => None
  end.

(** The comparator handed to [sort]. *)
Definition compareFn (sortOption : SortOption) (a b : Item) : option Z :=
  match sortOption with
  | newest => tb ← getTime b; ta ← getTime a; Some (tb - ta)
  | oldest => ta ← getTime a; tb ← getTime b; Some (ta - tb)
  | company_az =>
      aCompany ← lowerCompany a; bCompany ← lowerCompany b;
      Some (localeCompare aCompany bCompany)
  | company_za =>
      aCompany ← lowerCompany a; bCompany ← lowerCompany b;
      Some (localeCompare bCompany aCompany)
  end.

Definition sortedInternships (filtered : list Item) (sortOption : SortOption)
    : option (list Item) :=
  array_sort_throwing (compareFn sortOption) filtered.

(** What a render derives, when it does not throw. *)
Record View := {
  total : nat;
  counts : gmap string nat;
  rows : list Item
}.

Definition derive (internships : list Item) (statusFilter : StatusFilter)
    (searchTerm : string) (sortOption : SortOption) : option View :=
  sorted ← sortedInternships (filteredInternships internships statusFilter searchTerm)
                             sortOption;
  Some {| total := totalCount internships;
          counts := statusCounts internships;
          rows := sorted |}.
End Host.
End Rt.

(** A record the sort can compare under every option: its company is a
    string and its [createdAt] is not a truthy primitive. *)
Definition sortable (item : Item) : Prop :=
  (∃ s, item_company item = JsStr s) ∧ is_Some (Rt.getTime item).

(* ===================================================================== *)
(** ** The derivation on arrays held by reference *)
(* ===================================================================== *)

(** The same statements run against a store of arrays: [filter] and the
    spread [[...a]] allocate a new array, [sort] reorders its receiver in
    place and returns it.  [None] stands for a thrown exception: reading an
    array that is not there, or the comparator throwing. *)
Module Arrays.

Definition Ref := nat.
Definition Heap := list (list Item).
Definition Run (A : Type) : Type := Heap → option (A * Heap).

Definition ret {A} (a : A) : Run A := λ h, Some (a, h).
Definition bind {A B} (c : Run A) (k : A → Run B) : Run B :=
  λ h, match c h with
       | Some (a, h') => k a h'
       | None => None
       end.
(** A computation that touches no array. *)
Definition lift {A} (o : option A) : Run A :=
  λ h, match o with
       | Some a => Some (a, h)
       | None => None
       end.

Declare Scope run_scope.
Delimit Scope run_scope with run.
Notation "'let!' x ':=' c 'in' k" := (bind c (λ x, k))
  (at level 10, x name, c at level 100, k at level 200) : run_scope.
Local Open Scope run_scope.

Definition newArray (l : list Item) : Run Ref :=
  λ h, Some (length h, h ++ [l]).

Definition readArray (r : Ref) : Run (list Item) :=
  λ h, match h !! r with
       | Some l => Some (l, h)
       | None => None
       end.

Definition writeArray (r : Ref) (l : list Item) : Run unit :=
  λ h, match h !! r with
       | Some _ => Some (tt, <[r := l]> h)
       | None => None
       end.

(** [a.filter(p)] *)
Definition filterArray (a : Ref) (p : Item → bool) : Run Ref :=
  let! l := readArray a in newArray (List.filter p l).

(** [a.length] *)
Definition lengthArray (a : Ref) : Run nat :=
  let! l := readArray a in ret (length l).

(** [[...a]] *)
Definition spreadArray (a : Ref) : Run Ref :=
  let! l := readArray a in newArray l.

(** [a.sort(compareFn)]: reorders [a] in place and returns it. *)
Definition sortArray (a : Ref) (cmp : Item → Item → option Z) : Run Ref :=
  let! l := readArray a in
  let! sorted := lift (array_sort_throwing cmp l) in
  let! _ := writeArray a sorted in
  ret a.

Definition statusCountsRun (internships : Ref) : Run (gmap string nat) :=
  foldl (λ accRun opt,
           let! acc := accRun in
           let! matching := filterArray internships
                            (λ i, Rt.strictEq (item_status i)
                                              (status_string (value opt))) in
           let! n := lengthArray matching in
           ret (<[status_string (value opt) := n]> acc))
        (ret ∅) STATUS_OPTIONS.

Definition deriveRun (hostTrim hostLower : string → string)
    (localeCompare : string → string → Z) (stringOf : JsVal → string)
    (internships : Ref) (statusFilter : StatusFilter) (searchTerm : string)
    (sortOption : SortOption) : Run (nat * gmap string nat * Ref) :=
  let! total := lengthArray internships in
  let! counts := statusCountsRun internships in
  let! filtered := filterArray internships
                   (λ item, Rt.matchesStatus statusFilter item
                            && Rt.matchesSearch hostTrim hostLower stringOf
                                                searchTerm item) in
  let! copy := spreadArray filtered in
  let! sorted := sortArray copy (Rt.compareFn hostLower localeCompare sortOption) in
  ret (total, counts, sorted).

End Arrays.

(* ===================================================================== *)
(** ** The dashboard component: state, handlers, subscription *)
(* ===================================================================== *)

(** The signed-in user, as far as the component reads it. *)
Record User := { uid : string }.

(** The calls the component makes on the database.  [collection] and [doc]
    only build references; the path [users/uid/internships(/id)] is carried
    by the call. *)
Inductive DbCall :=
| addDoc (uid : string) (fields : DocumentData)
| updateDoc (uid : string) (docId : string) (fields : DocumentData)
| deleteDoc (uid : string) (docId : string).

(** The create/edit form, each cell with the type of its [useState]
    declaration. *)
Record Form := {
  f_company : string;
  f_role : string;
  f_status : InternshipStatus;
  f_notes : string;
  isEditing : bool;
  editingId : option string
}.

(** The [useState] cells of [DashboardPage], the user given by [useAuth],
    and [listener]: the user whose collection the [onSnapshot] listener
    registered by the last run of the effect is attached to, [None] once
    [unsub] was called. *)
Record State := {
  user : option User;
  form : Form;
  internships : list Item;
  loadingList : bool;
  saving : bool;
  error : option string;
  statusFilter : StatusFilter;
  searchTerm : string;
  sortOption : SortOption;
  listener : option string
}.

Definition emptyForm : Form :=
  {| f_company := ""; f_role := ""; f_status := applied; f_notes := "";
     isEditing := false; editingId := None |}.

Definition setForm (f : Form) (s : State) : State :=
  {| user := user s; form := f; internships := internships s;
     loadingList := loadingList s; saving := saving s; error := error s;
     statusFilter := statusFilter s; searchTerm := searchTerm s;
     sortOption := sortOption s; listener := listener s |}.

Definition setError (e : option string) (s : State) : State :=
  {| user := user s; form := form s; internships := internships s;
     loadingList := loadingList s; saving := saving s; error := e;
     statusFilter := statusFilter s; searchTerm := searchTerm s;
     sortOption := sortOption s; listener := listener s |}.

Definition setSaving (b : bool) (s : State) : State :=
  {| user := user s; form := form s; internships := internships s;
     loadingList := loadingList s; saving := b; error := error s;
     statusFilter := statusFilter s; searchTerm := searchTerm s;
     sortOption := sortOption s; listener := listener s |}.

Definition setInternships (l : list Item) (s : State) : State :=
  {| user := user s; form := form s; internships := l;
     loadingList := loadingList s; saving := saving s; error := error s;
     statusFilter := statusFilter s; searchTerm := searchTerm s;
     sortOption := sortOption s; listener := listener s |}.

Definition setLoadingList (b : bool) (s : State) : State :=
  {| user := user s; form := form s; internships := internships s;
     loadingList := b; saving := saving s; error := error s;
     statusFilter := statusFilter s; searchTerm := searchTerm s;
     sortOption := sortOption s; listener := listener s |}.

Definition setListener (l : option string) (s : State) : State :=
  {| user := user s; form := form s; internships := internships s;
     loadingList := loadingList s; saving := saving s; error := error s;
     statusFilter := statusFilter s; searchTerm := searchTerm s;
     sortOption := sortOption s; listener := l |}.

Definition setUser (u : option User) (s : State) : State :=
  {| user := u; form := form s; internships := internships s;
     loadingList := loadingList s; saving := saving s; error := error s;
     statusFilter := statusFilter s; searchTerm := searchTerm s;
     sortOption := sortOption s; listener := listener s |}.

Definition setSelection (f : StatusFilter) (q : string) (o : SortOption)
    (s : State) : State :=
  {| user := user s; form := form s; internships := internships s;
     loadingList := loadingList s; saving := saving s; error := error s;
     statusFilter := f; searchTerm := q; sortOption := o;
     listener := listener s |}.

Definition resetForm (s : State) : State := setForm emptyForm s.

(** The fields written by the two branches of [handleSubmit]. *)
Definition updateFields (f : Form) : DocumentData :=
  <["company" := JsStr (trim (f_company f))]>
  (<["role" := JsStr (trim (f_role f))]>
  (<["status" := JsStr (status_string (f_status f))]>
  (<["notes" := JsStr (trim (f_notes f))]> ∅))).

Definition addFields (f : Form) : DocumentData :=
  <["createdAt" := JsServerTimestamp]> (updateFields f).

(** [isEditing && editingId]: the id to update, if the form is editing one. *)
Definition editTarget (f : Form) : option string :=
  if isEditing f then
    match editingId f with
    | Some i => if truthy i then Some i else None
    | None => None
    end
  else None.

(** [handleSubmit].  [ok] tells whether the awaited database call resolves
    ([true]) or rejects. *)
Definition handleSubmit (s : State) (ok : bool) : State * list DbCall :=
  let s := setError None s in
  if is_empty (trim (f_company (form s))) || is_empty (trim (f_role (form s))) then
    (setError (Some "Please enter both company and role.") s, [])
  else
    match user s with
    | None =>
        (setError (Some "You must be logged in to add or edit internships.") s, [])
    | Some u =>
        let s := setSaving true s in
        let call :=
          match editTarget (form s) with
          | Some i => updateDoc (uid u) i (updateFields (form s))
          | None => addDoc (uid u) (addFields (form s))
          end in
        let s :=
          if ok then resetForm s
          else setError (Some "Failed to save internship. Please try again.") s in
        (setSaving false s, [call])
    end.

(** [handleEdit] *)
Definition handleEdit (item : Internship) (s : State) : State :=
  setForm {| f_company := company item; f_role := role item;
             f_status := status item; f_notes := default "" (notes item);
             isEditing := true; editingId := Some (id item) |} s.

Definition handleCancelEdit (s : State) : State := resetForm s.

(** [handleDelete].  [confirmed] is the answer of [window.confirm], [ok]
    whether [deleteDoc] resolves. *)
Definition handleDelete (s : State) (docId : string) (confirmed ok : bool)
    : State * list DbCall :=
  match user s with
  | None => (s, [])
  | Some u =>
      if negb confirmed then (s, [])
      else
        (if ok then s
         else setError (Some "Failed to delete internship. Please try again.") s,
         [deleteDoc (uid u) docId])
  end.

(** The effect [useEffect(..., [user])]: when the user changes, the cleanup
    of the previous run ([unsub], if that run subscribed) and then the body. *)
Definition subscriptionEffect (s : State) : State :=
  let s := setListener None s in
  match user s with
  | None => setLoadingList false (setInternships [] s)
  | Some u => setListener (Some (uid u)) s
  end.

(** The two callbacks given to [onSnapshot]. *)
Definition onNext (docs : list DocSnap) (s : State) : State :=
  setLoadingList false (setInternships (mapSnapshot docs) s).

Definition onError (s : State) : State :=
  setLoadingList false
    (setError (Some "Failed to load internships. Check console for details.") s).

(** What can happen to a mounted dashboard.  [AuthChanged u]: [useAuth]
    yields another user [u], so the effect keyed on [user] runs again.
    [SnapshotNext] and [SnapshotError]: the database calls a callback of the
    listener.  The others are the user's actions; [ok] and [confirmed] are
    the outcome of the awaited call and the answer to [window.confirm]. *)
Inductive Event :=
| AuthChanged (u : option User)
| SnapshotNext (docs : list DocSnap)
| SnapshotError
| FormInput (f : Form)
| Submit (ok : bool)
| Edit (item : Internship)
| CancelEdit
| Delete (docId : string) (confirmed ok : bool)
| Select (f : StatusFilter) (q : string) (o : SortOption).

(** One transition.  The listener callbacks run only while a listener is
    registered; form input changes the four text cells and leaves the edit
    mode alone. *)
Definition step (s : State) (e : Event) : State * list DbCall :=
  match e with
  | AuthChanged u => (subscriptionEffect (setUser u s), [])
  | SnapshotNext docs =>
      (match listener s with Some _ => onNext docs s | None => s end, [])
  | SnapshotError =>
      (match listener s with Some _ => onError s | None => s end, [])
  | FormInput f =>
      (setForm {| f_company := f_company f; f_role := f_role f;
                  f_status := f_status f; f_notes := f_notes f;
                  isEditing := isEditing (form s);
                  editingId := editingId (form s) |} s, [])
  | Submit ok => handleSubmit s ok
  | Edit item => (handleEdit item s, [])
  | CancelEdit => (handleCancelEdit s, [])
  | Delete docId confirmed ok => handleDelete s docId confirmed ok
  | Select f q o => (setSelection f q o s, [])
  end.

(** The state after mounting with user [u]: the initial cells, then the
    first run of the effect. *)
Definition mount (u : option User) : State :=
  subscriptionEffect
    {| user := u; form := emptyForm; internships := []; loadingList := true;
       saving := false; error := None; statusFilter := all; searchTerm := "";
       sortOption := newest; listener := None |}.

Fixpoint run (s : State) (es : list Event) : State :=
  match es with
  | [] => s
  | e :: es' => run (step s e).1 es'
  end.

(** The documents of the database, keyed by user and document identifier
    (the path [users/uid/internships/docId]). *)
Abbreviation Firestore := (gmap (string * string) DocumentData).

(** A field value as stored: the [serverTimestamp()] sentinel becomes the
    server's time. *)
Definition resolveTimestamp (now : Timestamp) (v : JsVal) : JsVal :=
  match v with
  | JsServerTimestamp => JsTime now
  | _ => v
  end.

(** Modelled from the spec: the database collaborator (firebase/firestore,
    not part of the repository), as sections 4.3 and 6 describe it: a per-user
    collection of documents keyed by a server-assigned identifier, with
    insert-with-server-timestamp, partial field update (the fields passed
    overwrite, the others stay) and delete-by-identifier.  [newId] and [now]
    are the server's choices for an insert.  [None] is a rejected call. *)
Definition applyCall (newId : string) (now : Timestamp) (db : Firestore)
    (c : DbCall) : option Firestore :=
  match c with
  | addDoc u fields =>
      match db !! (u, newId) with
      | None => Some (<[(u, newId) := resolveTimestamp now <$> fields]> db)
      | Some _ => None
      end
  | updateDoc u i fields =>
      match db !! (u, i) with
      | Some old => Some (<[(u, i) := (resolveTimestamp now <$> fields) ∪ old]> db)
      | None => None
      end
  | deleteDoc u i => Some (delete (u, i) db)
  end.

(* ===================================================================== *)
(** ** Vocabulary of the statements, and sample data *)
(* ===================================================================== *)

(** What the search predicate is meant to decide: [needle] occurs in [hay]
    when letter case is disregarded, that is, some segment of [hay] folds to
    the same string as [needle]. *)
Definition occursIgnoringCase (needle hay : string) : Prop :=
  ∃ pre mid suf, hay = pre +:+ mid +:+ suf ∧ toLowerCase mid = toLowerCase needle.

(** A stored document whose status is no member, and one without status. *)
Definition pendingDoc : DocSnap :=
  {| snap_id := "d1";
     snap_data := <["company" := JsStr "Acme"]>
                  (<["role" := JsStr "Intern"]>
                  (<["status" := JsStr "pending"]> ∅)) |}.

Definition bareDoc : DocSnap :=
  {| snap_id := "d2"; snap_data := <["company" := JsStr "Acme"]> ∅ |}.

(** Under the comparator [cmp], [x] may stand before [y]. *)
Definition before {A : Type} (cmp : A → A → Z) (x y : A) : Prop := cmp x y ≤ 0.

(** A record whose creation time is pending, one created before 1970 and
    one created in 2023. *)
Definition pendingRecord : Internship :=
  {| id := "p"; company := "Acme"; role := "Intern"; status := applied;
     notes := None; createdAt := None |}.

Definition earlyRecord : Internship :=
  {| id := "r"; company := "Zen"; role := "Intern"; status := offer;
     notes := Some ""; createdAt := Some {| millis := -5 |} |}.

Definition lateRecord : Internship :=
  {| id := "s"; company := "mid"; role := "Intern"; status := offer;
     notes := Some ""; createdAt := Some {| millis := 1700000000000 |} |}.

(** The company names of [l] are pairwise distinct under the comparison
    the sort uses: records at different positions never compare equal on
    their lower-cased company names. *)
Definition distinctCompanies (localeCompare : string → string → Z)
    (l : list Internship) : Prop :=
  ∀ i j x y, l !! i = Some x → l !! j = Some y → i ≠ j →
    localeCompare (toLowerCase (company x)) (toLowerCase (company y)) ≠ 0.

(** Closes a decidable goal by evaluation. *)
Ltac decide_now := apply (bool_decide_unpack _); vm_compute; exact I.

(** The fields an edit submission writes. *)
Definition updateKeys : list string := ["company"; "role"; "status"; "notes"].

(** A signed-in dashboard editing document [d1], and that document as
    stored. *)
Definition editingState : State :=
  {| user := Some {| uid := "u1" |};
     form := {| f_company := " Acme "; f_role := "Intern"; f_status := interview;
                f_notes := " call back "; isEditing := true;
                editingId := Some "d1" |};
     internships := []; loadingList := false; saving := false; error := None;
     statusFilter := all; searchTerm := ""; sortOption := newest;
     listener := Some "u1" |}.

Definition storedDoc : DocumentData :=
  <["company" := JsStr "Acme"]>
  (<["role" := JsStr "intern"]>
  (<["status" := JsStr "applied"]>
  (<["notes" := JsStr ""]>
  (<["createdAt" := JsTime {| millis := 1700000000000 |}]> ∅)))).

(** A dashboard with nobody signed in, and one whose form has a blank role. *)
Definition signedOutState : State :=
  {| user := None;
     form := {| f_company := "Acme"; f_role := "Intern"; f_status := applied;
                f_notes := ""; isEditing := false; editingId := None |};
     internships := []; loadingList := false; saving := false; error := None;
     statusFilter := all; searchTerm := ""; sortOption := newest;
     listener := None |}.

Definition blankRoleState : State :=
  setForm {| f_company := "Acme"; f_role := "   "; f_status := applied;
             f_notes := ""; isEditing := true; editingId := Some "d1" |}
          editingState.

(** What holds of the cache and the listener in every state the component
    reaches: signed out, the cache is empty and nothing is subscribed; signed
    in, the one listener is on that user's collection. *)
Definition cacheInvariant (s : State) : Prop :=
  match user s with
  | None => internships s = [] ∧ listener s = None
  | Some u => listener s = Some (uid u)
  end.

(** A dashboard after its first snapshot. *)
Definition subscribedState : State :=
  run (mount (Some {| uid := "u1" |})) [SnapshotNext [pendingDoc; bareDoc]].

(** The two records of the worked scenarios: Acme, applied, created at [t1];
    Zen, an offer, created later. *)
Definition acme : Internship :=
  {| id := "1"; company := "Acme"; role := "Backend"; status := applied;
     notes := None; createdAt := Some {| millis := 1000 |} |}.

Definition zen : Internship :=
  {| id := "2"; company := "Zen"; role := "Data"; status := offer;
     notes := Some "referral"; createdAt := Some {| millis := 2000 |} |}.

(* ===================================================================== *)
(** ** What a render shows, and the routes *)
(* ===================================================================== *)

(** The list area of the dashboard: the [loadingList ? ... : ...] expression
    below the filters. *)
Inductive ListView :=
| ListLoading                        (* "Loading..." *)
| NoInternshipsYet                   (* "No internships yet. Add your first one above." *)
| NoMatch                            (* "No internships match this filter/search." *)
| ShowList (rows : list Internship).

Definition listView (loadingList : bool) (v : ViewState) : ListView :=
  if loadingList then ListLoading
  else if (length (view_list v) =? 0)%nat then
    if (view_total v =? 0)%nat then NoInternshipsYet else NoMatch
  else ShowList (view_list v).

(** [item.notes && item.notes.trim() !== ""]: is the notes line of a row
    rendered? *)
Definition showNotes (item : Internship) : bool :=
  match notes item with
  | Some n => truthy n && negb (is_empty (trim n))
  | None => false
  end.

(** [RequireAuth]: what the gate around the dashboard renders. *)
Inductive GateView :=
| GateLoading          (* <p>Loading...</p> *)
| NavigateToAuth       (* <Navigate to="/auth" replace /> *)
| GateChildren.        (* the children *)

Definition RequireAuth (user : option User) (loading : bool) : GateView :=
  if loading then GateLoading
  else match user with
       | None => NavigateToAuth
       | Some _ => GateChildren
       end.

(** The three returns of [DashboardPage]. *)
Inductive DashboardView :=
| DashboardLoading     (* "Loading..." *)
| NotLoggedIn          (* "You are not logged in." *)
| DashboardMain.

Definition dashboardView (user : option User) (authLoading : bool) : DashboardView :=
  if authLoading then DashboardLoading
  else match user with
       | None => NotLoggedIn
       | Some _ => DashboardMain
       end.

(** The effect of [AuthPage]: [if (!loading && user) navigate("/")]. *)
Definition authPageNavigates (user : option User) (loading : bool) : bool :=
  negb loading && bool_decide (is_Some user).

(** The two routes of [App]: ["/"] (the gated dashboard) and ["/auth"]. *)
Inductive Location :=
| RootPath
| AuthPath.

(** Where the router is after the page at [loc] has rendered and its
    redirect, if any, was followed. *)
Definition route (user : option User) (loading : bool) (loc : Location) : Location :=
  match loc with
  | RootPath =>
      match RequireAuth user loading with
      | NavigateToAuth => AuthPath
      | _ => RootPath
      end
  | AuthPath => if authPageNavigates user loading then RootPath else AuthPath
  end.

(** Vocabulary for strings: made of white space only; first and last
    character. *)
Fixpoint allSpaces (s : string) : bool :=
  match s with
  | EmptyString => true
  | String c s' => is_space c && allSpaces s'
  end.

Definition firstChar (s : string) : option ascii :=
  match s with
  | EmptyString => None
  | String c _ => Some c
  end.

Fixpoint lastChar (s : string) : option ascii :=
  match s with
  | EmptyString => None
  | String c EmptyString => Some c
  | String _ s' => lastChar s'
  end.

(** The fields of a call, whichever it is ([deleteDoc] passes none). *)
Definition callFields (c : DbCall) : DocumentData :=
  match c with
  | addDoc _ fields => fields
  | updateDoc _ _ fields => fields
  | deleteDoc _ _ => ∅
  end.

(** A dashboard in create mode with a filled form, signed in as [u1]. *)
Definition creatingState : State :=
  {| user := Some {| uid := "u1" |};
     form := {| f_company := "  Globex "; f_role := "SWE Intern"; f_status := applied;
                f_notes := " apply by Friday  "; isEditing := false;
                editingId := None |};
     internships := []; loadingList := false; saving := false; error := None;
     statusFilter := all; searchTerm := ""; sortOption := newest;
     listener := Some "u1" |}.

(** No white space at either end. *)
Definition trimmed (s : string) : Prop :=
  (∀ a, firstChar s = Some a → is_space a = false)
  ∧ (∀ a, lastChar s = Some a → is_space a = false).

(** The document [data] holds, as strings, the four form fields of [item]. *)
Definition storesFields (data : DocumentData) (item : Internship) : Prop :=
  data !! "company" = Some (JsStr (company item))
  ∧ data !! "role" = Some (JsStr (role item))
  ∧ data !! "status" = Some (JsStr (status_string (status item)))
  ∧ data !! "notes" = Some (JsStr (default "" (notes item))).

(** A record as this form writes it: company and role non-empty, and no
    white space around company, role and notes. *)
Definition tidyRecord (item : Internship) : Prop :=
  company item ≠ "" ∧ role item ≠ ""
  ∧ trimmed (company item) ∧ trimmed (role item)
  ∧ trimmed (default "" (notes item)).

(** A tidy record and the document that stores it. *)
Definition globex : Internship :=
  {| id := "d7"; company := "Globex"; role := "SWE Intern"; status := interview;
     notes := Some "call back"; createdAt := Some {| millis := 1700000000000 |} |}.

Definition globexDoc : DocumentData :=
  <["company" := JsStr "Globex"]>
  (<["role" := JsStr "SWE Intern"]>
  (<["status" := JsStr "interview"]>
  (<["notes" := JsStr "call back"]>
  (<["createdAt" := JsTime {| millis := 1700000000000 |}]> ∅)))).

(** The creation times of [l], pending counted as zero, are pairwise
    different. *)
Definition distinctTimes (l : list Internship) : Prop :=
  ∀ i j x y, l !! i = Some x → l !! j = Some y → i ≠ j → getTime x ≠ getTime y.

(** Two more records created at the time of [acme], to show ties. *)
Definition acmeTwin : Internship :=
  {| id := "3"; company := "ACME"; role := "Frontend"; status := rejected;
     notes := None; createdAt := Some {| millis := 1000 |} |}.

(** All characters of [s] are ASCII (code below 128).  On such strings the
    [trim] and [toLowerCase] of this file are those of the host. *)
Fixpoint isAscii (s : string) : bool :=
  match s with
  | EmptyString => true
  | String c s' => (N_of_ascii c <? 128)%N && isAscii s'
  end.

(** [needle] is a substring of [hay] when both are lower-cased. *)
Definition ciSubstring (hostLower : string → string) (needle hay : string) : Prop :=
  ∃ pre suf, hostLower hay = pre +:+ hostLower needle +:+ suf.

(** The status of a cached record is one of the five literals. *)
Definition knownStatus (item : Item) : bool :=
  bool_decide (is_InternshipStatus (item_status item)).

(** A conversion to string to run examples with. *)
Definition sampleStringOf (v : JsVal) : string :=
  match v with
  | JsUndefined => "undefined"
  | JsNull => "null"
  | JsBool true => "true"
  | JsBool false => "false"
  | JsNum n => pretty.pretty n
  | JsStr s => s
  | JsTime _ | JsServerTimestamp => "[object Object]"
  end.

(** Two stored documents whose company is a number, and two whose
    [createdAt] is a string. *)
Definition numberDoc (i : string) : DocSnap :=
  {| snap_id := i;
     snap_data := <["company" := JsNum 42]>
                  (<["role" := JsStr "Intern"]>
                  (<["status" := JsStr "applied"]> ∅)) |}.

Definition datedDoc (i : string) : DocSnap :=
  {| snap_id := i;
     snap_data := <["company" := JsStr "Acme"]>
                  (<["role" := JsStr "Intern"]>
                  (<["createdAt" := JsStr "2024-01-01"]> ∅)) |}.

(** The cache [items] holds objects of the declared field types, [rs] being
    the records they denote. *)
Definition typedCache (items : list Item) (rs : list Internship) : Prop :=
  Forall2 (λ it r, typed it = Some r) items rs.

(** A stored document with a resolved creation time. *)
Definition resolvedDoc : DocSnap := {| snap_id := "d3"; snap_data := globexDoc |}.

(* ===================================================================== *)
(** * Properties *)
(* ===================================================================== *)

(** ** Strings *)

Section StringFacts.
Import JsString.

Lemma startsWith_spec (s p : string) :
  startsWith s p = true ↔ ∃ suf, s = p +:+ suf.
Proof.
  revert s. induction p as [|a p IH]; intros s; simpl.
  - split; [intros _; by exists s | done].
  - destruct s as [|b s]; simpl.
    + split; [done | intros [suf H]; discriminate].
    + rewrite andb_true_iff, Ascii.eqb_eq, IH. split.
      * intros [-> [suf ->]]. by exists suf.
      * intros [suf H]. injection H as -> ->. split; [done | by exists suf].
Qed.

Lemma includes_spec (s needle : string) :
  includes s needle = true ↔ ∃ pre suf, s = pre +:+ needle +:+ suf.
Proof.
  induction s as [|c s IH]; simpl.
  - rewrite orb_false_r, startsWith_spec. split.
    + intros [suf H]. by exists "", suf.
    + intros [pre [suf H]]. destruct pre; [by exists suf | discriminate].
  - rewrite orb_true_iff, startsWith_spec, IH. split.
    + intros [[suf H] | [pre [suf H]]].
      * by exists "", suf.
      * exists (String c pre), suf. simpl. by rewrite H.
    + intros [pre [suf H]]. destruct pre as [|d pre]; simpl in H.
      * left. by exists suf.
      * right. injection H as _ ->. by exists pre, suf.
Qed.

Lemma lower_char_idem (c : ascii) : lower_char (lower_char c) = lower_char c.
Proof. destruct c as [[] [] [] [] [] [] [] []]; reflexivity. Qed.

Lemma toLowerCase_idem (s : string) : toLowerCase (toLowerCase s) = toLowerCase s.
Proof. induction s as [|c s IH]; simpl; [done | by rewrite lower_char_idem, IH]. Qed.

Lemma toLowerCase_app (a b : string) :
  toLowerCase (a +:+ b) = toLowerCase a +:+ toLowerCase b.
Proof. induction a as [|c a IH]; simpl; [done | by rewrite IH]. Qed.

Lemma toLowerCase_split (h x y : string) :
  toLowerCase h = x +:+ y →
  ∃ a b, h = a +:+ b ∧ toLowerCase a = x ∧ toLowerCase b = y.
Proof.
  revert h. induction x as [|c x IH]; intros h H; simpl in H.
  - by exists "", h.
  - destruct h as [|d h]; simpl in H; [discriminate |].
    injection H as Hc Hx. destruct (IH h Hx) as (a & b & -> & <- & <-).
    exists (String d a), b. simpl. by rewrite Hc.
Qed.

Lemma is_empty_spec (s : string) : is_empty s = true ↔ s = "".
Proof. by destruct s. Qed.
End StringFacts.

(** ** The snapshot mapping *)

Lemma nullish_cases (v d : JsVal) :
  (v = JsUndefined ∨ v = JsNull) ∧ nullish v d = d
  ∨ v ≠ JsUndefined ∧ v ≠ JsNull ∧ nullish v d = v.
Proof. destruct v; simpl; auto. Qed.

(** C1, as stated, fails: a stored status string outside the enumeration is
    neither replaced by [applied] nor a member after the mapping.  The
    document [pendingDoc] stores the status ["pending"]; its mapped record
    still has the status ["pending"]. *)
Lemma C1_unrecognized_status_kept :
  field (snap_data pendingDoc) "status" = JsStr "pending"
  ∧ status_of_val (JsStr "pending") = None
  ∧ item_status (mapDoc pendingDoc) = JsStr "pending"
  ∧ ¬ is_InternshipStatus (item_status (mapDoc pendingDoc))
  ∧ ¬ (∀ docSnap, is_InternshipStatus (item_status (mapDoc docSnap)))
  ∧ ¬ (∀ docSnap s, field (snap_data docSnap) "status" = JsStr s →
         status_of_val (JsStr s) = None →
         item_status (mapDoc docSnap) = JsStr "applied").
Proof.
  assert (Hm : item_status (mapDoc pendingDoc) = JsStr "pending") by reflexivity.
  assert (Hn : ¬ is_InternshipStatus (item_status (mapDoc pendingDoc))).
  { rewrite Hm. intros [x Hx]. vm_compute in Hx. discriminate. }
  split; [reflexivity |]. split; [reflexivity |]. split; [exact Hm |].
  split; [exact Hn |]. split.
  - intros H. exact (Hn (H pendingDoc)).
  - intros H. specialize (H pendingDoc "pending" eq_refl eq_refl).
    rewrite Hm in H. discriminate.
Qed.

(** C1, amended: the mapped status is [applied] exactly when the stored
    status is missing ([undefined] or [null]); any other stored value is
    carried over unchanged.  So the mapped status is a member of the
    enumeration if and only if the stored one is missing or already is a
    member. *)
Theorem C1_mapDoc_status (docSnap : DocSnap) :
  let stored := field (snap_data docSnap) "status" in
  let mapped := item_status (mapDoc docSnap) in
  (stored = JsUndefined ∨ stored = JsNull → mapped = JsStr "applied")
  ∧ (stored ≠ JsUndefined → stored ≠ JsNull → mapped = stored)
  ∧ (is_InternshipStatus mapped ↔
       stored = JsUndefined ∨ stored = JsNull ∨ is_InternshipStatus stored).
Proof.
  cbv zeta. unfold mapDoc; simpl.
  destruct (nullish_cases (field (snap_data docSnap) "status") (JsStr "applied"))
    as [[Hv ->] | (H1 & H2 & ->)].
  - split; [done |]. split.
    + intros ? ?. destruct Hv; congruence.
    + split; [intros _; destruct Hv; auto |].
      intros _. exists applied. reflexivity.
  - split; [intros [?|?]; congruence |]. split; [done |].
    split; [auto |]. intros [?|[?|?]]; [congruence | congruence | done].
Qed.

Lemma C1_witness :
  item_status (mapDoc bareDoc) = JsStr "applied".
Proof.
  apply (proj1 (C1_mapDoc_status bareDoc)). left. reflexivity.
Defined.

(** Read against the interface, the item of [bareDoc] is an [Internship];
    that of [pendingDoc] is not, its status being no member. *)
Example typed_bareDoc :
  typed (mapDoc bareDoc)
  = Some {| id := "d2"; company := "Acme"; role := ""; status := applied;
            notes := Some ""; createdAt := None |}.
Proof. reflexivity. Qed.

Example typed_pendingDoc : typed (mapDoc pendingDoc) = None.
Proof. reflexivity. Qed.

Lemma typed_status (it : Item) (i : Internship) :
  typed it = Some i → item_status it = JsStr (status_string (status i)).
Proof.
  unfold typed. intros H.
  destruct (item_company it); try discriminate.
  destruct (item_role it); try discriminate. simpl in H.
  destruct (item_status it) as [| | | |st| |]; try discriminate.
  destruct (status_of_val (JsStr st)) as [m|] eqn:Hm; [| discriminate].
  simpl in H.
  destruct (item_notes it); try discriminate;
    destruct (item_createdAt it); try discriminate;
    simpl in H; injection H as <-; simpl;
    unfold status_of_val in Hm; apply find_some in Hm as [_ Hm];
    apply String.eqb_eq in Hm; by rewrite Hm.
Qed.

(** ** Status counts *)

Lemma statusCounts_lookup (l : list Internship) (s : InternshipStatus) :
  statusCounts l !! status_string s = Some (countWithStatus l s).
Proof.
  unfold statusCounts. simpl.
  destruct s; simpl;
    repeat (rewrite lookup_insert_ne by discriminate);
    apply lookup_insert_eq.
Qed.

Lemma badge_statusCounts (l : list Internship) (s : InternshipStatus) :
  badge (statusCounts l) s = countWithStatus l s.
Proof. unfold badge. by rewrite statusCounts_lookup. Qed.

Lemma countWithStatus_cons (i : Internship) (l : list Internship)
    (s : InternshipStatus) :
  countWithStatus (i :: l) s
  = ((if bool_decide (status i = s) then 1 else 0) + countWithStatus l s)%nat.
Proof. unfold countWithStatus. simpl. by destruct (bool_decide _). Qed.

Lemma countWithStatus_count_occ (l : list Internship) (s : InternshipStatus) :
  countWithStatus l s = count_occ InternshipStatus_eq_dec (map status l) s.
Proof.
  induction l as [|i l IH]; [done |].
  rewrite countWithStatus_cons, IH. simpl.
  destruct (InternshipStatus_eq_dec (status i) s) as [E|E].
  - by rewrite bool_decide_eq_true_2.
  - by rewrite bool_decide_eq_false_2.
Qed.

Lemma countWithStatus_sum (l : list Internship) :
  (countWithStatus l applied + countWithStatus l online_assessment
   + countWithStatus l interview + countWithStatus l offer
   + countWithStatus l rejected = length l)%nat.
Proof.
  induction l as [|i l IH]; [done |].
  rewrite !countWithStatus_cons. simpl length.
  destruct (status i); simpl; lia.
Qed.

(** The same on the cache as it is at run time: [statusCounts] compares the
    stored status, whatever it is, with each of the five literals. *)
Lemma Rt_statusCounts_lookup (l : list Item) (s : InternshipStatus) :
  Rt.statusCounts l !! status_string s = Some (Rt.countWithStatus l s).
Proof.
  unfold Rt.statusCounts. simpl.
  destruct s; simpl;
    repeat (rewrite lookup_insert_ne by discriminate);
    apply lookup_insert_eq.
Qed.

Lemma Rt_badge_statusCounts (l : list Item) (s : InternshipStatus) :
  badge (Rt.statusCounts l) s = Rt.countWithStatus l s.
Proof. unfold badge. by rewrite Rt_statusCounts_lookup. Qed.

Lemma status_of_val_strictEq (v : JsVal) (m s : InternshipStatus) :
  status_of_val v = Some m →
  Rt.strictEq v (status_string s) = bool_decide (m = s).
Proof.
  destruct v as [| | | |t| |]; try done.
  unfold status_of_val, Rt.strictEq. intros H.
  apply find_some in H as [_ H]. apply String.eqb_eq in H. subst t.
  by destruct m, s.
Qed.

Lemma status_of_val_None (v : JsVal) (s : InternshipStatus) :
  status_of_val v = None → Rt.strictEq v (status_string s) = false.
Proof.
  destruct v as [| | | |t| |]; try done.
  unfold status_of_val, Rt.strictEq. intros H.
  rewrite String.eqb_sym. apply (find_none _ _ H). destruct s; simpl; tauto.
Qed.

Lemma strictEq_status_of_val (v : JsVal) (s : InternshipStatus) :
  Rt.strictEq v (status_string s) = bool_decide (status_of_val v = Some s).
Proof.
  destruct (status_of_val v) as [m|] eqn:E.
  - rewrite (status_of_val_strictEq v m s E).
    repeat case_bool_decide; congruence.
  - rewrite (status_of_val_None v s E). by rewrite bool_decide_eq_false_2.
Qed.

Lemma knownStatus_spec (item : Item) :
  knownStatus item = true ↔ is_InternshipStatus (item_status item).
Proof. unfold knownStatus. apply bool_decide_eq_true. Qed.

Lemma Rt_countWithStatus_cons (i : Item) (l : list Item) (s : InternshipStatus) :
  Rt.countWithStatus (i :: l) s
  = ((if bool_decide (status_of_val (item_status i) = Some s) then 1 else 0)
     + Rt.countWithStatus l s)%nat.
Proof.
  unfold Rt.countWithStatus. simpl. rewrite strictEq_status_of_val.
  by destruct (bool_decide _).
Qed.

Lemma Rt_countWithStatus_filter (l : list Item) (s : InternshipStatus) :
  Rt.countWithStatus l s
  = length (List.filter
              (λ i, bool_decide (status_of_val (item_status i) = Some s)) l).
Proof.
  induction l as [|i l IH]; [done |].
  rewrite Rt_countWithStatus_cons, IH. simpl. by destruct (bool_decide _).
Qed.

(** A record counts under exactly one of the five literals when its status
    is one of them, and under none when it is not. *)
Lemma Rt_countWithStatus_sum (l : list Item) :
  (Rt.countWithStatus l applied + Rt.countWithStatus l online_assessment
   + Rt.countWithStatus l interview + Rt.countWithStatus l offer
   + Rt.countWithStatus l rejected = length (List.filter knownStatus l))%nat.
Proof.
  induction l as [|i l IH]; [done |].
  rewrite !Rt_countWithStatus_cons. simpl List.filter.
  unfold knownStatus at 1, is_InternshipStatus.
  destruct (status_of_val (item_status i)) as [m|].
  - rewrite (bool_decide_eq_true_2 (is_Some (Some m))) by by eexists.
    simpl length.
    destruct m; repeat case_bool_decide; try congruence; simpl; lia.
  - rewrite (bool_decide_eq_false_2 (is_Some None)) by by intros [? ?].
    repeat case_bool_decide; try congruence; simpl; lia.
Qed.

Lemma filter_knownStatus_all (l : list Item) :
  Forall (λ i, is_InternshipStatus (item_status i)) l →
  List.filter knownStatus l = l.
Proof.
  induction 1 as [|i l H _ IH]; [done |]. simpl.
  rewrite (proj2 (knownStatus_spec i) H). by rewrite IH.
Qed.

Lemma filter_length_le {A} (p : A → bool) (l : list A) :
  (length (List.filter p l) ≤ length l)%nat.
Proof. induction l as [|x l IH]; simpl; [lia |]. destruct (p x); simpl; lia. Qed.

(** C2, as stated, fails: the dashboard's first snapshot can leave in the
    cache a record whose stored status is none of the five literals; it is
    counted in the total and under no status, so the five counts add up to
    one for a total of two. *)
Lemma C2_counts_miss_a_record :
  internships subscribedState = mapSnapshot [pendingDoc; bareDoc]
  ∧ (∃ v, Rt.derive trim toLowerCase codeUnitCompare sampleStringOf
            (internships subscribedState) all "" newest = Some v
          ∧ Rt.total v = 2%nat
          ∧ (badge (Rt.counts v) applied + badge (Rt.counts v) online_assessment
             + badge (Rt.counts v) interview + badge (Rt.counts v) offer
             + badge (Rt.counts v) rejected = 1)%nat)
  ∧ ¬ (∀ (items : list Item) (f : StatusFilter) (q : string) (o : SortOption)
         (v : Rt.View),
         Rt.derive trim toLowerCase codeUnitCompare sampleStringOf items f q o
         = Some v →
         (badge (Rt.counts v) applied + badge (Rt.counts v) online_assessment
          + badge (Rt.counts v) interview + badge (Rt.counts v) offer
          + badge (Rt.counts v) rejected = Rt.total v)%nat).
Proof.
  assert (E : Rt.derive trim toLowerCase codeUnitCompare sampleStringOf
                (internships subscribedState) all "" newest
              = Some {| Rt.total := 2;
                        Rt.counts := Rt.statusCounts (mapSnapshot [pendingDoc; bareDoc]);
                        Rt.rows := mapSnapshot [pendingDoc; bareDoc] |})
    by reflexivity.
  assert (S : (badge (Rt.statusCounts (mapSnapshot [pendingDoc; bareDoc])) applied
               + badge (Rt.statusCounts (mapSnapshot [pendingDoc; bareDoc])) online_assessment
               + badge (Rt.statusCounts (mapSnapshot [pendingDoc; bareDoc])) interview
               + badge (Rt.statusCounts (mapSnapshot [pendingDoc; bareDoc])) offer
               + badge (Rt.statusCounts (mapSnapshot [pendingDoc; bareDoc])) rejected
               = 1)%nat).
  { rewrite !Rt_badge_statusCounts. reflexivity. }
  split; [reflexivity |]. split.
  - eexists. split; [exact E |]. split; [reflexivity | exact S].
  - intros H. specialize (H _ _ _ _ _ E).
    change (Rt.counts _) with (Rt.statusCounts (mapSnapshot [pendingDoc; bareDoc])) in H.
    rewrite S in H. discriminate.
Qed.

(** C2, amended: the counts a render shows are those of the whole cached
    list, whatever the filter, the search string and the sort option are;
    the count of each member is the number of cached records whose status is
    that member; the five counts add up to the number of cached records whose
    status is one of the five members, which is the number of cached records
    when every cached status is a member; the [all] count is the number of
    cached records. *)
Theorem C2_status_counts (hostTrim hostLower : string → string)
    (localeCompare : string → string → Z) (stringOf : JsVal → string)
    (items : list Item) (f : StatusFilter) (q : string) (o : SortOption)
    (v : Rt.View) :
  Rt.derive hostTrim hostLower localeCompare stringOf items f q o = Some v →
  (∀ f' q' o' v',
     Rt.derive hostTrim hostLower localeCompare stringOf items f' q' o' = Some v' →
     Rt.counts v' = Rt.counts v ∧ Rt.total v' = Rt.total v)
  ∧ (∀ s, badge (Rt.counts v) s
          = length (List.filter
                      (λ i, bool_decide (status_of_val (item_status i) = Some s))
                      items))
  ∧ (badge (Rt.counts v) applied + badge (Rt.counts v) online_assessment
     + badge (Rt.counts v) interview + badge (Rt.counts v) offer
     + badge (Rt.counts v) rejected
     = length (List.filter knownStatus items))%nat
  ∧ (Forall (λ i, is_InternshipStatus (item_status i)) items →
     (badge (Rt.counts v) applied + badge (Rt.counts v) online_assessment
      + badge (Rt.counts v) interview + badge (Rt.counts v) offer
      + badge (Rt.counts v) rejected = Rt.total v)%nat)
  ∧ Rt.total v = length items.
Proof.
  unfold Rt.derive. intros H.
  destruct (Rt.sortedInternships _ _ _ o) as [rows|]; [| done].
  injection H as <-. simpl.
  split; [| split; [| split; [| split]]].
  - intros f' q' o' v' H'.
    destruct (Rt.sortedInternships _ _ _ o') as [rows'|]; [| done].
    by injection H' as <-.
  - intros s. by rewrite Rt_badge_statusCounts, Rt_countWithStatus_filter.
  - rewrite !Rt_badge_statusCounts. apply Rt_countWithStatus_sum.
  - intros Hall. rewrite !Rt_badge_statusCounts, Rt_countWithStatus_sum.
    by rewrite (filter_knownStatus_all items Hall).
  - done.
Qed.

Lemma C2_witness :
  (badge (Rt.statusCounts (mapSnapshot [bareDoc; bareDoc])) applied
   + badge (Rt.statusCounts (mapSnapshot [bareDoc; bareDoc])) online_assessment
   + badge (Rt.statusCounts (mapSnapshot [bareDoc; bareDoc])) interview
   + badge (Rt.statusCounts (mapSnapshot [bareDoc; bareDoc])) offer
   + badge (Rt.statusCounts (mapSnapshot [bareDoc; bareDoc])) rejected = 2)%nat.
Proof.
  destruct (C2_status_counts trim toLowerCase codeUnitCompare sampleStringOf
              (mapSnapshot [bareDoc; bareDoc]) (only offer) "x" company_az
              {| Rt.total := 2;
                 Rt.counts := Rt.statusCounts (mapSnapshot [bareDoc; bareDoc]);
                 Rt.rows := [] |} eq_refl)
    as (_ & _ & _ & H & _).
  apply H. repeat constructor; by eexists.
Defined.

(** ** Search *)

(** On typed records and with the ASCII functions of this file, where
    lower-casing goes character by character, the predicate decides whether
    some segment of the text folds to the normalised search string. *)
Lemma matchesSearch_occursIgnoringCase (searchTerm : string) (item : Internship) :
  matchesSearch searchTerm item = true ↔
    normalizedSearch searchTerm = ""
    ∨ occursIgnoringCase (normalizedSearch searchTerm)
        (company item +:+ " " +:+ role item +:+ " " +:+ default "" (notes item)).
Proof.
  unfold matchesSearch, haystack, occursIgnoringCase.
  set (n := normalizedSearch searchTerm).
  set (h := company item +:+ " " +:+ role item +:+ " " +:+ default "" (notes item)).
  assert (Hn : toLowerCase n = n) by apply toLowerCase_idem.
  rewrite orb_true_iff, is_empty_spec, includes_spec.
  split; (intros [H | H]; [by left | right]).
  - destruct H as (pre & suf & H).
    apply toLowerCase_split in H as (a & b & -> & <- & Hb).
    apply toLowerCase_split in Hb as (m & c & -> & Hm & <-).
    exists a, m, c. split; [done | congruence].
  - destruct H as (pre & mid & suf & -> & Hm).
    exists (toLowerCase pre), (toLowerCase suf).
    rewrite !toLowerCase_app. congruence.
Qed.

Lemma string_app_empty_r (s : string) : s +:+ "" = s.
Proof.
  induction s as [|x s IH]; [done |].
  change (String x (s +:+ "") = String x s). by f_equal.
Qed.



(** A company stored as a number is searched by its digits. *)
Example search_number_company :
  Rt.searchedText sampleStringOf (mapDoc (numberDoc "a")) = "42 Intern "
  ∧ Rt.matchesSearch trim toLowerCase sampleStringOf "42 in" (mapDoc (numberDoc "a"))
    = true
  ∧ Rt.matchesSearch trim toLowerCase sampleStringOf " ACME " (mapDoc pendingDoc)
    = true.
Proof. repeat split; reflexivity. Qed.

(** ** Filter *)

Lemma filteredInternships_elem_of (l : list Internship) (f : StatusFilter)
    (q : string) (item : Internship) :
  item ∈ filteredInternships l f q ↔
  item ∈ l ∧ matchesStatus f item = true ∧ matchesSearch q item = true.
Proof.
  unfold filteredInternships.
  rewrite !list_elem_of_In, filter_In, andb_true_iff. tauto.
Qed.

Lemma count_occ_List_filter {A} (dec : ∀ x y : A, {x = y} + {x ≠ y})
    (p : A → bool) (l : list A) (x : A) :
  count_occ dec (List.filter p l) x = if p x then count_occ dec l x else 0%nat.
Proof.
  induction l as [|y l IH]; simpl.
  - by destruct (p x).
  - destruct (p y) eqn:Hy; simpl; destruct (dec y x) as [->|Hne];
      rewrite IH; try rewrite Hy; try done; by destruct (p x).
Qed.

Lemma List_filter_sublist {A} (p : A → bool) (l : list A) :
  sublist (List.filter p l) l.
Proof.
  induction l as [|y l IH]; simpl; [constructor |].
  destruct (p y); by constructor.
Qed.

(** C5: with the filter [all], every cached record passing the search is in
    the filtered list; with a status [f], every record of the filtered list
    has status [f], and a cached record with status [f] passing the search
    occurs in the filtered list as often as in the cache (once when the cache
    holds it once).  The filtered list keeps exactly the records passing both
    tests, in cache order. *)
Theorem C5_filteredInternships (internships : list Internship) (q : string) :
  (∀ item, item ∈ internships → matchesSearch q item = true →
           item ∈ filteredInternships internships all q)
  ∧ (∀ f item, item ∈ filteredInternships internships (only f) q → status item = f)
  ∧ (∀ f item, item ∈ internships → status item = f → matchesSearch q item = true →
       item ∈ filteredInternships internships (only f) q
       ∧ count_occ Internship_eq_dec (filteredInternships internships (only f) q) item
         = count_occ Internship_eq_dec internships item)
  ∧ (∀ f item, count_occ Internship_eq_dec internships item = 1%nat →
       status item = f → matchesSearch q item = true →
       count_occ Internship_eq_dec (filteredInternships internships (only f) q) item
       = 1%nat)
  ∧ (∀ sf item, item ∈ filteredInternships internships sf q ↔
       item ∈ internships ∧ matchesStatus sf item = true ∧ matchesSearch q item = true)
  ∧ (∀ sf, sublist (filteredInternships internships sf q) internships).
Proof.
  assert (Hcount : ∀ f item, status item = f → matchesSearch q item = true →
            count_occ Internship_eq_dec (filteredInternships internships (only f) q) item
            = count_occ Internship_eq_dec internships item).
  { intros f item Hs Hq. unfold filteredInternships.
    rewrite count_occ_List_filter. simpl.
    by rewrite bool_decide_eq_true_2, Hq. }
  split; [| split; [| split; [| split; [| split]]]].
  - intros item Hin Hq. apply filteredInternships_elem_of. by simpl.
  - intros f item Hin. apply filteredInternships_elem_of in Hin as (_ & Hs & _).
    simpl in Hs. by apply bool_decide_eq_true_1 in Hs.
  - intros f item Hin Hs Hq. split; [| by apply Hcount].
    apply filteredInternships_elem_of. simpl. by rewrite bool_decide_eq_true_2.
  - intros f item H1 Hs Hq. by rewrite Hcount.
  - intros sf item. apply filteredInternships_elem_of.
  - intros sf. apply List_filter_sublist.
Qed.

Lemma C5_witness :
  lateRecord ∈ filteredInternships [pendingRecord; earlyRecord; lateRecord] (only offer) "MID"
  ∧ count_occ Internship_eq_dec
      (filteredInternships [pendingRecord; earlyRecord; lateRecord] (only offer) "MID")
      lateRecord = 1%nat.
Proof.
  destruct (C5_filteredInternships [pendingRecord; earlyRecord; lateRecord] "MID")
    as (_ & _ & H3 & H4 & _).
  split.
  - apply (H3 offer lateRecord); [decide_now | reflexivity | reflexivity].
  - apply (H4 offer lateRecord); reflexivity.
Defined.

(** ** Sorting *)

Section ArraySortFacts.
Context {A : Type} (cmp : A → A → Z).

Lemma sort_insert_Permutation (x : A) (l : list A) :
  sort_insert cmp x l ≡ₚ x :: l.
Proof.
  induction l as [|y l IH]; simpl; [done |].
  destruct (cmp x y <=? 0); [done |].
  rewrite IH. apply Permutation_swap.
Qed.

Lemma array_sort_Permutation (l : list A) : array_sort cmp l ≡ₚ l.
Proof.
  induction l as [|x l IH]; simpl; [done |].
  by rewrite sort_insert_Permutation, IH.
Qed.

Lemma array_sort_length (l : list A) : length (array_sort cmp l) = length l.
Proof. apply Permutation_length, array_sort_Permutation. Qed.

Hypothesis cmp_total : ∀ x y, cmp x y ≤ 0 ∨ cmp y x ≤ 0.
Hypothesis cmp_trans : ∀ x y z, cmp x y ≤ 0 → cmp y z ≤ 0 → cmp x z ≤ 0.

Lemma sort_insert_StronglySorted (x : A) (l : list A) :
  StronglySorted (before cmp) l → StronglySorted (before cmp) (sort_insert cmp x l).
Proof.
  induction 1 as [|y l Hl IH Hy]; simpl.
  - repeat constructor.
  - destruct (Z.leb_spec (cmp x y) 0) as [Hxy | Hxy].
    + constructor; [by constructor |].
      constructor; [done |].
      eapply Forall_impl; [exact Hy |]. intros z Hz. by eapply cmp_trans.
    + constructor; [done |].
      rewrite sort_insert_Permutation. constructor; [| done].
      destruct (cmp_total x y); [lia | done].
Qed.

Lemma array_sort_StronglySorted (l : list A) :
  StronglySorted (before cmp) (array_sort cmp l).
Proof.
  induction l as [|x l IH]; simpl; [constructor |].
  by apply sort_insert_StronglySorted.
Qed.

(** A list already in order is returned as it is. *)
Lemma array_sort_sorted_id (l : list A) :
  StronglySorted (before cmp) l → array_sort cmp l = l.
Proof.
  induction 1 as [|x l Hl IH Hx]; simpl; [done |].
  rewrite IH. destruct Hx as [|y l' Hy _]; simpl; [done |].
  unfold before in Hy. by destruct (Z.leb_spec (cmp x y) 0); [| lia].
Qed.

(** Stability: the records that tie with [x] keep their relative order. *)
Hypothesis cmp_swap : ∀ x y, cmp x y < 0 ↔ 0 < cmp y x.

Lemma tie_trans (x a y : A) : cmp x a = 0 → cmp x y = 0 → cmp a y = 0.
Proof using cmp_swap cmp_trans.
  intros Hxa Hxy.
  pose proof (cmp_swap x a). pose proof (cmp_swap a x).
  pose proof (cmp_swap x y). pose proof (cmp_swap y x).
  pose proof (cmp_swap a y).
  pose proof (cmp_trans a x y). pose proof (cmp_trans y x a). lia.
Qed.

Lemma sort_insert_stable (x a : A) (l : list A) :
  List.filter (λ y, cmp x y =? 0) (sort_insert cmp a l)
  = List.filter (λ y, cmp x y =? 0) (a :: l).
Proof using cmp_swap cmp_trans.
  induction l as [|y l IH]; [done |].
  simpl sort_insert. destruct (Z.leb_spec (cmp a y) 0) as [Hay | Hay]; [done |].
  simpl in *. rewrite IH.
  destruct (Z.eqb_spec (cmp x a) 0) as [Hxa|]; [| done].
  destruct (Z.eqb_spec (cmp x y) 0) as [Hxy|]; [| done].
  pose proof (tie_trans x a y Hxa Hxy). lia.
Qed.

Lemma array_sort_stable (x : A) (l : list A) :
  List.filter (λ y, cmp x y =? 0) (array_sort cmp l)
  = List.filter (λ y, cmp x y =? 0) l.
Proof using cmp_swap cmp_trans.
  induction l as [|a l IH]; [done |].
  simpl array_sort. rewrite sort_insert_stable. simpl. by rewrite IH.
Qed.
End ArraySortFacts.

Lemma StronglySorted_lookup_lt {A} (R : relation A) (l : list A) (i j : nat)
    (x y : A) :
  StronglySorted R l → l !! i = Some x → l !! j = Some y → (i < j)%nat → R x y.
Proof.
  intros Hl. revert i j. induction Hl as [|z l Hl IH Hz]; intros i j Hi Hj Hij.
  - done.
  - destruct j as [|j]; [lia |]. destruct i as [|i]; simpl in *.
    + injection Hi as ->. eapply Forall_lookup_1; eauto.
    + eapply IH; eauto. lia.
Qed.

Lemma StronglySorted_weaken {A} (R R' : relation A) (l : list A) :
  (∀ x y, R x y → R' x y) → StronglySorted R l → StronglySorted R' l.
Proof.
  intros HR. induction 1 as [|x l Hl IH Hx]; constructor; [done |].
  eapply Forall_impl; eauto.
Qed.

Lemma getTime_pending (x : Internship) : createdAt x = None → getTime x = 0.
Proof. unfold getTime. by intros ->. Qed.

(** The sort with a comparator that may throw: it returns the arrangement
    of [array_sort] when the comparator is defined on the elements. *)
Lemma sort_insert_throwing_ok {A} (cmp : A → A → option Z) (c : A → A → Z)
    (x : A) (l : list A) :
  (∀ y, y ∈ l → cmp x y = Some (c x y)) →
  sort_insert_throwing cmp x l = Some (sort_insert c x l).
Proof.
  induction l as [|y l IH]; intros Hc; simpl; [done |].
  rewrite (Hc y) by left. simpl.
  destruct (c x y <=? 0); [done |].
  rewrite IH; [done |]. intros z Hz. apply Hc. by right.
Qed.

Lemma array_sort_throwing_ok {A} (cmp : A → A → option Z) (c : A → A → Z)
    (l : list A) :
  (∀ x y, x ∈ l → y ∈ l → cmp x y = Some (c x y)) →
  array_sort_throwing cmp l = Some (array_sort c l).
Proof.
  induction l as [|x l IH]; intros Hc; simpl; [done |].
  rewrite IH by (intros y z Hy Hz; apply Hc; by right). simpl.
  apply sort_insert_throwing_ok. intros y Hy.
  apply Hc; [left | right]. by rewrite (array_sort_Permutation c l) in Hy.
Qed.

Lemma sort_insert_throwing_Permutation {A} (cmp : A → A → option Z) (x : A)
    (l r : list A) :
  sort_insert_throwing cmp x l = Some r → r ≡ₚ x :: l.
Proof.
  revert r. induction l as [|y l IH]; intros r; simpl.
  - by intros [= <-].
  - destruct (cmp x y) as [c|]; simpl; [| done].
    destruct (c <=? 0); [by intros [= <-] |].
    destruct (sort_insert_throwing cmp x l) as [r'|]; simpl; [| done].
    intros [= <-]. rewrite (IH r' eq_refl). apply Permutation_swap.
Qed.

Lemma array_sort_throwing_Permutation {A} (cmp : A → A → option Z) (l r : list A) :
  array_sort_throwing cmp l = Some r → r ≡ₚ l.
Proof.
  revert r. induction l as [|x l IH]; intros r; simpl.
  - by intros [= <-].
  - destruct (array_sort_throwing cmp l) as [s|]; simpl; [| done].
    intros H. apply sort_insert_throwing_Permutation in H.
    by rewrite H, (IH s eq_refl).
Qed.

Lemma compareFn_sortable (hostLower : string → string)
    (localeCompare : string → string → Z) (o : SortOption) (a b : Item) :
  sortable a → sortable b →
  is_Some (Rt.compareFn hostLower localeCompare o a b).
Proof.
  intros [[sa Ha] [ta Hta]] [[sb Hb] [tb Htb]].
  destruct o; unfold Rt.compareFn, Rt.lowerCompany;
    rewrite ?Hta, ?Htb, ?Ha, ?Hb; simpl; by eexists.
Qed.

Lemma sortedInternships_sortable (hostLower : string → string)
    (localeCompare : string → string → Z) (o : SortOption) (l : list Item) :
  Forall sortable l →
  ∃ rows, Rt.sortedInternships hostLower localeCompare l o = Some rows
          ∧ rows ≡ₚ l.
Proof.
  intros Hl. unfold Rt.sortedInternships.
  set (cmp := Rt.compareFn hostLower localeCompare o).
  assert (H : array_sort_throwing cmp l
              = Some (array_sort (λ a b, default 0 (cmp a b)) l)).
  { apply array_sort_throwing_ok. intros x y Hx Hy.
    rewrite Forall_forall in Hl.
    destruct (compareFn_sortable hostLower localeCompare o x y (Hl x Hx) (Hl y Hy))
      as [c Hc].
    unfold cmp. by rewrite Hc. }
  eexists. split; [exact H | apply array_sort_Permutation].
Qed.

Lemma sort_insert_throwing_Some {A} (cmp : A → A → option Z) (c : A → A → Z)
    (x : A) (l r : list A) :
  (∀ a b v, cmp a b = Some v → v = c a b) →
  sort_insert_throwing cmp x l = Some r → r = sort_insert c x l.
Proof.
  intros Hc. revert r. induction l as [|y l IH]; intros r; simpl.
  - by intros [= <-].
  - destruct (cmp x y) as [v|] eqn:E; simpl; [| done].
    rewrite <- (Hc x y v E).
    destruct (v <=? 0); [by intros [= <-] |].
    destruct (sort_insert_throwing cmp x l) as [r'|]; simpl; [| done].
    intros [= <-]. by rewrite (IH r' eq_refl).
Qed.

Lemma array_sort_throwing_Some {A} (cmp : A → A → option Z) (c : A → A → Z)
    (l r : list A) :
  (∀ a b v, cmp a b = Some v → v = c a b) →
  array_sort_throwing cmp l = Some r → r = array_sort c l.
Proof.
  intros Hc. revert r. induction l as [|x l IH]; intros r; simpl.
  - by intros [= <-].
  - destruct (array_sort_throwing cmp l) as [s|]; simpl; [| done].
    intros H. rewrite <- (IH s eq_refl).
    by apply (sort_insert_throwing_Some cmp c).
Qed.

(** Without a premise on the times the pending record need not be last: a
    [Timestamp] before the epoch has a negative [getTime]. *)
Example pending_above_early_record :
  createdAt pendingRecord = None
  ∧ is_Some (createdAt earlyRecord)
  ∧ sortedInternships codeUnitCompare [pendingRecord; earlyRecord] newest
    = [pendingRecord; earlyRecord].
Proof. split; [done |]. split; [by eexists | reflexivity]. Qed.

(** On typed records: the [newest] output is a rearrangement of the filtered
    list in descending order of [getTime], the [oldest] output in ascending
    order. *)
Lemma typed_sort_by_time (localeCompare : string → string → Z)
    (filtered : list Internship) :
  let desc := sortedInternships localeCompare filtered newest in
  let asc := sortedInternships localeCompare filtered oldest in
  desc ≡ₚ filtered
  ∧ StronglySorted (λ a b, getTime b ≤ getTime a) desc
  ∧ asc ≡ₚ filtered
  ∧ StronglySorted (λ a b, getTime a ≤ getTime b) asc.
Proof.
  cbv zeta. unfold sortedInternships.
  split; [apply array_sort_Permutation |]. split.
  { eapply StronglySorted_weaken;
      [| apply array_sort_StronglySorted; simpl; intros; lia].
    unfold before; simpl. intros; lia. }
  split; [apply array_sort_Permutation |].
  eapply StronglySorted_weaken;
    [| apply array_sort_StronglySorted; simpl; intros; lia].
  unfold before; simpl. intros; lia.
Qed.

(** The time sorts on the cache as it is at run time.  [key] is the number
    [getTime] returns, and [sign] is [1] for [oldest] and [-1] for
    [newest]. *)
Lemma time_sort_sorted (sign : Z) (cmp : Item → Item → option Z)
    (l : list Item) :
  (sign = 1 ∨ sign = -1) →
  (∀ a b ta tb, Rt.getTime a = Some ta → Rt.getTime b = Some tb →
                cmp a b = Some (sign * (ta - tb))) →
  Forall (λ x, is_Some (Rt.getTime x)) l →
  ∃ rows,
    array_sort_throwing cmp l = Some rows
    ∧ rows ≡ₚ l
    ∧ ∀ i j a b ta tb,
        rows !! i = Some a → rows !! j = Some b → (i < j)%nat →
        Rt.getTime a = Some ta → Rt.getTime b = Some tb →
        sign * (ta - tb) ≤ 0.
Proof.
  intros Hsign Hcmp Hl.
  pose (key := λ x : Item, default 0 (Rt.getTime x)).
  pose (c := λ a b : Item, sign * (key a - key b)).
  assert (Hs : array_sort_throwing cmp l = Some (array_sort c l)).
  { apply array_sort_throwing_ok. intros x y Hx Hy.
    rewrite Forall_forall in Hl.
    destruct (Hl x Hx) as [tx Htx], (Hl y Hy) as [ty Hty].
    rewrite (Hcmp x y tx ty Htx Hty). unfold c, key. by rewrite Htx, Hty. }
  exists (array_sort c l). split; [exact Hs |].
  split; [apply array_sort_Permutation |].
  intros i j a b ta tb Hi Hj Hij Ha Hb.
  assert (Hsorted : StronglySorted (before c) (array_sort c l)).
  { apply array_sort_StronglySorted; unfold c; intros; lia. }
  pose proof (StronglySorted_lookup_lt _ _ _ _ _ _ Hsorted Hi Hj Hij) as H.
  unfold before, c, key in H. by rewrite Ha, Hb in H.
Qed.



Example newest_puts_pending_last :
  Rt.sortedInternships toLowerCase codeUnitCompare
    (mapSnapshot [pendingDoc; resolvedDoc]) newest
  = Some (mapSnapshot [resolvedDoc; pendingDoc])
  ∧ Rt.sortedInternships toLowerCase codeUnitCompare
      (mapSnapshot [pendingDoc; resolvedDoc]) oldest
    = Some (mapSnapshot [pendingDoc; resolvedDoc]).
Proof. split; reflexivity. Qed.

Section CompanyOrder.
Variable localeCompare : string → string → Z.

(** [localeCompare] is a consistent comparison: swapping the arguments
    swaps the sign, and "not after" is transitive. *)
Hypothesis localeCompare_swap :
  ∀ a b, localeCompare a b < 0 ↔ 0 < localeCompare b a.
Hypothesis localeCompare_trans :
  ∀ a b c, localeCompare a b ≤ 0 → localeCompare b c ≤ 0 → localeCompare a c ≤ 0.

Local Abbreviation az := (compareFn localeCompare company_az).
Local Abbreviation za := (compareFn localeCompare company_za).

Lemma before_za_flip (x y : Internship) : before za x y ↔ flip (before az) x y.
Proof using Type. done. Qed.

Lemma az_total (x y : Internship) : az x y ≤ 0 ∨ az y x ≤ 0.
Proof using localeCompare_swap.
  unfold az; simpl.
  pose proof (localeCompare_swap (toLowerCase (company y)) (toLowerCase (company x))).
  lia.
Qed.

Lemma az_trans (x y z : Internship) : az x y ≤ 0 → az y z ≤ 0 → az x z ≤ 0.
Proof using localeCompare_trans. unfold az; simpl. apply localeCompare_trans. Qed.

Lemma az_tie (x y : Internship) :
  az x y ≤ 0 → az y x ≤ 0 →
  localeCompare (toLowerCase (company x)) (toLowerCase (company y)) = 0.
Proof using localeCompare_swap.
  unfold az; simpl. intros H1 H2.
  pose proof (localeCompare_swap (toLowerCase (company x)) (toLowerCase (company y))).
  lia.
Qed.

Lemma sorted_az (l : list Internship) :
  StronglySorted (before az) (sortedInternships localeCompare l company_az).
Proof using localeCompare_swap localeCompare_trans.
  apply array_sort_StronglySorted; [apply az_total | apply az_trans].
Qed.

Lemma sorted_za (l : list Internship) :
  StronglySorted (flip (before az)) (sortedInternships localeCompare l company_za).
Proof using localeCompare_swap localeCompare_trans.
  apply (array_sort_StronglySorted za).
  - intros x y. destruct (az_total x y); [right | left]; done.
  - intros x y z Hxy Hyz. exact (az_trans z y x Hyz Hxy).
Qed.

(** C6: when the company names of the filtered list are pairwise distinct
    under the case-insensitive comparison, sorting it with [company-za]
    gives exactly the reverse of sorting it with [company-az]. *)
Theorem C6_company_za_reverses_az (filtered : list Internship) :
  distinctCompanies localeCompare filtered →
  sortedInternships localeCompare filtered company_za
  = reverse (sortedInternships localeCompare filtered company_az).
Proof using localeCompare_swap localeCompare_trans.
  intros Hdist.
  assert (Htr : Transitive (flip (before az))).
  { intros x y z Hxy Hyz. exact (az_trans z y x Hyz Hxy). }
  apply (StronglySorted_unique_strong (flip (before az))).
  - intros x1 x2 H1 H2 R12 R21.
    unfold sortedInternships in H1, H2.
    rewrite (array_sort_Permutation _ filtered) in H1.
    rewrite reverse_Permutation in H2.
    rewrite (array_sort_Permutation _ filtered) in H2.
    apply list_elem_of_lookup in H1 as [i Hi].
    apply list_elem_of_lookup in H2 as [j Hj].
    destruct (decide (i = j)) as [-> | Hij]; [congruence |].
    exfalso. apply (Hdist i j x1 x2 Hi Hj Hij).
    by apply az_tie.
  - apply sorted_za.
  - apply Sorted_StronglySorted; [done |].
    apply Sorted_reverse, StronglySorted_Sorted, sorted_az.
  - unfold sortedInternships.
    by rewrite reverse_Permutation, !array_sort_Permutation.
Qed.
End CompanyOrder.

Lemma codeUnitCompare_swap (a b : string) :
  codeUnitCompare a b < 0 ↔ 0 < codeUnitCompare b a.
Proof.
  revert b. induction a as [|x a IH]; intros [|y b]; simpl; try lia.
  destruct (Z.eqb_spec (Z.of_N (N_of_ascii x) - Z.of_N (N_of_ascii y)) 0);
    destruct (Z.eqb_spec (Z.of_N (N_of_ascii y) - Z.of_N (N_of_ascii x)) 0);
    try lia.
  apply IH.
Qed.

Lemma codeUnitCompare_trans (a b c : string) :
  codeUnitCompare a b ≤ 0 → codeUnitCompare b c ≤ 0 → codeUnitCompare a c ≤ 0.
Proof.
  revert b c. induction a as [|x a IH]; intros [|y b] [|z c]; simpl; try lia.
  destruct (Z.eqb_spec (Z.of_N (N_of_ascii x) - Z.of_N (N_of_ascii y)) 0);
    destruct (Z.eqb_spec (Z.of_N (N_of_ascii y) - Z.of_N (N_of_ascii z)) 0);
    destruct (Z.eqb_spec (Z.of_N (N_of_ascii x) - Z.of_N (N_of_ascii z)) 0);
    try lia.
  apply IH.
Qed.

Lemma codeUnitCompare_eq (a b : string) : codeUnitCompare a b = 0 → a = b.
Proof.
  revert b. induction a as [|x a IH]; intros [|y b]; simpl; try done.
  destruct (Z.eqb_spec (Z.of_N (N_of_ascii x) - Z.of_N (N_of_ascii y)) 0) as [E|E];
    [| done].
  intros H. f_equal; [| by apply IH].
  rewrite <- (ascii_N_embedding x), <- (ascii_N_embedding y). f_equal. lia.
Qed.

(** With a comparison that separates distinct strings, lower-cased company
    names that differ as strings are distinct in the sense of the sort. *)
Lemma distinctCompanies_of_names (localeCompare : string → string → Z)
    (l : list Internship) :
  (∀ a b, localeCompare a b = 0 → a = b) →
  (∀ i j x y, l !! i = Some x → l !! j = Some y → i ≠ j →
     toLowerCase (company x) ≠ toLowerCase (company y)) →
  distinctCompanies localeCompare l.
Proof.
  intros Hsep Hne i j x y Hi Hj Hij Hz.
  exact (Hne i j x y Hi Hj Hij (Hsep _ _ Hz)).
Qed.

Lemma C6_witness :
  sortedInternships codeUnitCompare [earlyRecord; pendingRecord; lateRecord] company_za
  = reverse (sortedInternships codeUnitCompare
               [earlyRecord; pendingRecord; lateRecord] company_az).
Proof.
  apply (C6_company_za_reverses_az codeUnitCompare
           codeUnitCompare_swap codeUnitCompare_trans).
  intros i j x y Hi Hj Hij.
  destruct i as [|[|[|i]]]; destruct j as [|[|[|j]]];
    simpl in Hi, Hj; try discriminate; try lia;
    injection Hi as <-; injection Hj as <-; vm_compute; discriminate.
Defined.

(** ** The derivation at run time: when it returns, and what it leaves alone *)

Section ArraysFacts.
Import Arrays.

Lemma bind_Some {A B} (c : Run A) (k : A → Run B) (h h' : Heap) (a : A) :
  c h = Some (a, h') → bind c k h = k a h'.
Proof. unfold bind. by intros ->. Qed.

Lemma bind_None {A B} (c : Run A) (k : A → Run B) (h : Heap) :
  c h = None → bind c k h = None.
Proof. unfold bind. by intros ->. Qed.

Lemma readArray_ok (h : Heap) (r : Ref) (l : list Item) :
  h !! r = Some l → readArray r h = Some (l, h).
Proof. unfold readArray. by intros ->. Qed.

Lemma lengthArray_ok (h : Heap) (r : Ref) (l : list Item) :
  h !! r = Some l → lengthArray r h = Some (length l, h).
Proof.
  intros H. unfold lengthArray. by rewrite (bind_Some _ _ _ _ _ (readArray_ok _ _ _ H)).
Qed.

Lemma filterArray_ok (h : Heap) (r : Ref) (l : list Item) (p : Item → bool) :
  h !! r = Some l →
  filterArray r p h = Some (length h, h ++ [List.filter p l]).
Proof.
  intros H. unfold filterArray. by rewrite (bind_Some _ _ _ _ _ (readArray_ok _ _ _ H)).
Qed.

Lemma spreadArray_ok (h : Heap) (r : Ref) (l : list Item) :
  h !! r = Some l → spreadArray r h = Some (length h, h ++ [l]).
Proof.
  intros H. unfold spreadArray. by rewrite (bind_Some _ _ _ _ _ (readArray_ok _ _ _ H)).
Qed.

Lemma sortArray_ok (h : Heap) (r : Ref) (l sorted : list Item)
    (cmp : Item → Item → option Z) :
  h !! r = Some l →
  array_sort_throwing cmp l = Some sorted →
  sortArray r cmp h = Some (r, <[r := sorted]> h).
Proof.
  intros H Hs. unfold sortArray.
  rewrite (bind_Some _ _ _ _ _ (readArray_ok _ _ _ H)).
  unfold bind, lift, writeArray. by rewrite Hs, H.
Qed.

Lemma sortArray_throws (h : Heap) (r : Ref) (l : list Item)
    (cmp : Item → Item → option Z) :
  h !! r = Some l →
  array_sort_throwing cmp l = None →
  sortArray r cmp h = None.
Proof.
  intros H Hs. unfold sortArray.
  rewrite (bind_Some _ _ _ _ _ (readArray_ok _ _ _ H)).
  unfold bind, lift. by rewrite Hs.
Qed.

Lemma lookup_snoc_new (h : Heap) (l : list Item) :
  (h ++ [l]) !! length h = Some l.
Proof. by rewrite lookup_app_r, Nat.sub_diag by lia. Qed.

Lemma lookup_app_old (h e : Heap) (r : Ref) (l : list Item) :
  h !! r = Some l → (h ++ e) !! r = Some l.
Proof. intros H. by apply lookup_app_l_Some. Qed.

(** The loop of [reduce]: every step allocates the array of matching
    records and stores its length under the status literal. *)
Lemma statusCounts_loop (internships : Ref) (l : list Item)
    (opts : list StatusOption) (init : Run (gmap string nat))
    (acc : gmap string nat) (h e : Heap) :
  h !! internships = Some l →
  init h = Some (acc, h ++ e) →
  ∃ e',
    foldl (λ accRun opt,
             bind accRun (λ acc,
             bind (filterArray internships
                     (λ i, Rt.strictEq (item_status i) (status_string (value opt))))
                  (λ matching,
             bind (lengthArray matching) (λ n,
             ret (<[status_string (value opt) := n]> acc)))))
          init opts h
    = Some (foldl (λ acc opt,
                     <[status_string (value opt)
                       := Rt.countWithStatus l (value opt)]> acc)
                  acc opts,
            h ++ e').
Proof.
  intros Hl. revert init acc e.
  induction opts as [|opt opts IH]; intros init acc e Hinit; simpl.
  - by exists e.
  - eapply (IH _ _ (e ++ [_])).
    rewrite (bind_Some _ _ _ _ _ Hinit).
    rewrite (bind_Some _ _ _ _ _
               (filterArray_ok _ _ _ _ (lookup_app_old _ e _ _ Hl))).
    rewrite (bind_Some _ _ _ _ _ (lengthArray_ok _ _ _ (lookup_snoc_new _ _))).
    unfold ret, Rt.countWithStatus. by rewrite <- (assoc_L (++)).
Qed.

Lemma statusCountsRun_ok (internships : Ref) (l : list Item) (h : Heap) :
  h !! internships = Some l →
  ∃ e, statusCountsRun internships h = Some (Rt.statusCounts l, h ++ e).
Proof.
  intros Hl. unfold statusCountsRun, Rt.statusCounts.
  apply (statusCounts_loop internships l STATUS_OPTIONS (ret ∅) ∅ h [] Hl).
  unfold ret. by rewrite app_nil_r.
Qed.

(** The run against the store and the derivation on lists agree: the one
    returns when the other does, with the same total, counts and rows; the
    rows are in a newly allocated array and every array that existed before
    holds what it held. *)
Lemma deriveRun_derive (hostTrim hostLower : string → string)
    (localeCompare : string → string → Z) (stringOf : JsVal → string)
    (h : Heap) (internships : Ref) (l : list Item) (f : StatusFilter)
    (q : string) (o : SortOption) :
  h !! internships = Some l →
  match Rt.derive hostTrim hostLower localeCompare stringOf l f q o with
  | Some v =>
      ∃ h' sorted,
        deriveRun hostTrim hostLower localeCompare stringOf internships f q o h
        = Some ((Rt.total v, Rt.counts v, sorted), h')
        ∧ h' !! sorted = Some (Rt.rows v)
        ∧ h !! sorted = None
        ∧ (∀ r a, h !! r = Some a → h' !! r = Some a)
  | None =>
      deriveRun hostTrim hostLower localeCompare stringOf internships f q o h = None
  end.
Proof.
  intros Hl. unfold deriveRun, Rt.derive, Rt.sortedInternships.
  rewrite (bind_Some _ _ _ _ _ (lengthArray_ok _ _ _ Hl)).
  destruct (statusCountsRun_ok internships l h Hl) as [e He].
  rewrite (bind_Some _ _ _ _ _ He).
  set (h1 := h ++ e).
  assert (Hl1 : h1 !! internships = Some l) by by apply lookup_app_old.
  rewrite (bind_Some _ _ _ _ _ (filterArray_ok _ _ _ _ Hl1)).
  fold (Rt.filteredInternships hostTrim hostLower stringOf l f q).
  set (fl := Rt.filteredInternships hostTrim hostLower stringOf l f q).
  set (h2 := h1 ++ [fl]).
  rewrite (bind_Some _ _ _ _ _ (spreadArray_ok h2 _ _ (lookup_snoc_new h1 fl))).
  set (h3 := h2 ++ [fl]).
  destruct (array_sort_throwing (Rt.compareFn hostLower localeCompare o) fl)
    as [sorted|] eqn:Hs; simpl.
  - rewrite (bind_Some _ _ _ _ _
               (sortArray_ok _ _ _ _ _ (lookup_snoc_new h2 fl) Hs)).
    eexists _, _. split; [reflexivity |].
    assert (Hlen : (length h ≤ length h2)%nat).
    { unfold h2, h1. rewrite !length_app. lia. }
    split; [| split].
    + apply list_lookup_insert_eq. unfold h3. rewrite length_app. simpl. lia.
    + apply lookup_ge_None. lia.
    + intros r a Hr. pose proof (lookup_lt_Some _ _ _ Hr).
      etrans; [apply list_lookup_insert_ne; lia |].
      unfold h3, h2, h1. by do 3 apply lookup_app_old.
  - apply bind_None. by apply (sortArray_throws _ _ fl), Hs; apply lookup_snoc_new.
Qed.



End ArraysFacts.

(** ** Typed records and the run-time derivation *)

(** On a cache whose every object has the declared field types the run-time
    derivation throws nothing and is the typed one, under the ASCII instance
    of the string functions. *)
Lemma typed_inv (it : Item) (r : Internship) :
  typed it = Some r →
  item_company it = JsStr (company r)
  ∧ item_role it = JsStr (role r)
  ∧ status_of_val (item_status it) = Some (status r)
  ∧ nullish (item_notes it) (JsStr "") = JsStr (default "" (notes r))
  ∧ Rt.getTime it = Some (getTime r).
Proof.
  unfold typed, Rt.getTime, getTime. intros H.
  destruct (item_company it); try done.
  destruct (item_role it); try done.
  destruct (status_of_val (item_status it)); try done.
  destruct (item_notes it); try done;
    destruct (item_createdAt it); try done;
    simpl in H; injection H as <-; done.
Qed.

Lemma typed_matchesStatus (it : Item) (r : Internship) (f : StatusFilter) :
  typed it = Some r → Rt.matchesStatus f it = matchesStatus f r.
Proof.
  intros (_ & _ & H & _)%typed_inv. destruct f as [|s]; [done |].
  by apply status_of_val_strictEq.
Qed.

Lemma typed_matchesSearch (stringOf : JsVal → string) (it : Item)
    (r : Internship) (q : string) :
  typed it = Some r →
  Rt.matchesSearch trim toLowerCase stringOf q it = matchesSearch q r.
Proof.
  intros (Hc & Hr & _ & Hn & _)%typed_inv.
  unfold Rt.matchesSearch, matchesSearch, Rt.haystack, haystack, Rt.searchedText.
  by rewrite Hc, Hr, Hn.
Qed.

Lemma typed_compareFn (localeCompare : string → string → Z) (o : SortOption)
    (a b : Item) (ra rb : Internship) :
  typed a = Some ra → typed b = Some rb →
  Rt.compareFn toLowerCase localeCompare o a b
  = Some (compareFn localeCompare o ra rb).
Proof.
  intros (Ha & _ & _ & _ & Hta)%typed_inv (Hb & _ & _ & _ & Htb)%typed_inv.
  destruct o; unfold Rt.compareFn, Rt.lowerCompany;
    by rewrite ?Hta, ?Htb, ?Ha, ?Hb.
Qed.

Lemma typed_sortable (it : Item) (r : Internship) :
  typed it = Some r → sortable it.
Proof.
  intros (Hc & _ & _ & _ & Ht)%typed_inv. split; [by eexists | by rewrite Ht].
Qed.

Lemma typedCache_countWithStatus (items : list Item) (rs : list Internship)
    (s : InternshipStatus) :
  typedCache items rs →
  Rt.countWithStatus items s = countWithStatus rs s.
Proof.
  unfold Rt.countWithStatus, countWithStatus.
  induction 1 as [|it r items rs H _ IH]; [done |]. simpl.
  apply typed_inv in H as (_ & _ & H & _).
  rewrite (status_of_val_strictEq _ _ s H).
  destruct (bool_decide (status r = s)); simpl; by rewrite IH.
Qed.

Lemma typedCache_statusCounts (items : list Item) (rs : list Internship) :
  typedCache items rs → Rt.statusCounts items = statusCounts rs.
Proof.
  intros H. unfold Rt.statusCounts, statusCounts. simpl.
  by rewrite !(typedCache_countWithStatus items rs).
Qed.

Lemma typedCache_filteredInternships (stringOf : JsVal → string)
    (items : list Item) (rs : list Internship) (f : StatusFilter) (q : string) :
  typedCache items rs →
  typedCache (Rt.filteredInternships trim toLowerCase stringOf items f q)
             (filteredInternships rs f q).
Proof.
  unfold Rt.filteredInternships, filteredInternships, typedCache.
  induction 1 as [|it r items rs H _ IH]; [constructor |]. simpl.
  rewrite (typed_matchesStatus it r f H), (typed_matchesSearch stringOf it r q H).
  destruct (matchesStatus f r && matchesSearch q r); [by constructor | done].
Qed.

Lemma typedCache_sort_insert (localeCompare : string → string → Z)
    (o : SortOption) (it : Item) (r : Internship) (items : list Item)
    (rs : list Internship) :
  typed it = Some r → typedCache items rs →
  ∃ rows,
    sort_insert_throwing (Rt.compareFn toLowerCase localeCompare o) it items
    = Some rows
    ∧ typedCache rows (sort_insert (compareFn localeCompare o) r rs).
Proof.
  intros Hit. unfold typedCache.
  induction 1 as [|it' r' items rs H Hrest IH]; simpl.
  - eexists. split; [done |]. by repeat constructor.
  - rewrite (typed_compareFn localeCompare o it it' r r' Hit H). simpl.
    destruct (compareFn localeCompare o r r' <=? 0).
    + eexists. split; [done |]. by repeat constructor.
    + destruct IH as (rows & -> & IH). simpl.
      eexists. split; [done |]. by constructor.
Qed.

Lemma typedCache_sortedInternships (localeCompare : string → string → Z)
    (o : SortOption) (items : list Item) (rs : list Internship) :
  typedCache items rs →
  ∃ rows,
    Rt.sortedInternships toLowerCase localeCompare items o = Some rows
    ∧ typedCache rows (sortedInternships localeCompare rs o).
Proof.
  unfold Rt.sortedInternships, sortedInternships.
  induction 1 as [|it r items rs H _ IH]; simpl.
  - eexists. split; [done | constructor].
  - destruct IH as (rows & -> & IH). simpl.
    by apply typedCache_sort_insert.
Qed.

Lemma typedCache_derive (localeCompare : string → string → Z)
    (stringOf : JsVal → string) (items : list Item) (rs : list Internship)
    (f : StatusFilter) (q : string) (o : SortOption) :
  typedCache items rs →
  ∃ v,
    Rt.derive trim toLowerCase localeCompare stringOf items f q o = Some v
    ∧ Rt.total v = view_total (derive localeCompare rs f q o)
    ∧ Rt.counts v = view_counts (derive localeCompare rs f q o)
    ∧ typedCache (Rt.rows v) (view_list (derive localeCompare rs f q o)).
Proof.
  intros H. unfold Rt.derive.
  destruct (typedCache_sortedInternships localeCompare o _ _
              (typedCache_filteredInternships stringOf items rs f q H))
    as (rows & -> & Hrows).
  eexists. split; [done |]. simpl. split; [| split].
  - unfold Rt.totalCount, totalCount. by eapply Forall2_length.
  - by apply typedCache_statusCounts.
  - exact Hrows.
Qed.

(** ** The handlers *)

Lemma updateFields_dom (f : Form) :
  dom (updateFields f) = list_to_set (C := gset string) updateKeys.
Proof.
  unfold updateFields, updateKeys.
  rewrite !dom_insert_L, dom_empty_L. simpl. set_solver.
Qed.

Lemma updateFields_lookup_other (f : Form) (k : string) :
  k ∉ updateKeys → updateFields f !! k = None.
Proof.
  intros Hk. apply not_elem_of_dom. rewrite updateFields_dom.
  by rewrite elem_of_list_to_set.
Qed.

Lemma resolveTimestamp_updateFields (now : Timestamp) (f : Form) :
  resolveTimestamp now <$> updateFields f = updateFields f.
Proof.
  unfold updateFields. by rewrite !fmap_insert, fmap_empty.
Qed.

Lemma handleSubmit_calls (s : State) (ok : bool) :
  (handleSubmit s ok).2
  = if is_empty (trim (f_company (form s))) || is_empty (trim (f_role (form s)))
    then []
    else match user s with
         | None => []
         | Some u =>
             [match editTarget (form s) with
              | Some i => updateDoc (uid u) i (updateFields (form s))
              | None => addDoc (uid u) (addFields (form s))
              end]
         end.
Proof.
  unfold handleSubmit. simpl.
  destruct (is_empty _ || is_empty _); [done |].
  by destruct (user s).
Qed.

(** C8: an edit submission that passes the guards makes one call,
    [updateDoc] on the edited document, and the fields it passes are exactly
    company, role, status and notes: neither [createdAt] nor an identifier is
    among them.  Applied to a database holding the document, the call leaves
    [createdAt] and every field other than those four as they were, keeps the
    document under the same identifier, and touches no other document. *)
Theorem C8_update_writes_four_fields (s : State) (ok : bool) (u : User)
    (i : string) :
  user s = Some u →
  editTarget (form s) = Some i →
  is_empty (trim (f_company (form s))) = false →
  is_empty (trim (f_role (form s))) = false →
  (handleSubmit s ok).2 = [updateDoc (uid u) i (updateFields (form s))]
  ∧ dom (updateFields (form s)) = list_to_set (C := gset string) updateKeys
  ∧ updateFields (form s) !! "createdAt" = None
  ∧ updateFields (form s) !! "id" = None
  ∧ ∀ (newId : string) (now : Timestamp) (db : Firestore) (old : DocumentData),
      db !! (uid u, i) = Some old →
      ∃ new,
        applyCall newId now db (updateDoc (uid u) i (updateFields (form s)))
        = Some (<[(uid u, i) := new]> db)
        ∧ new !! "createdAt" = old !! "createdAt"
        ∧ (∀ k, k ∉ updateKeys → new !! k = old !! k)
        ∧ (∀ k, k ∈ updateKeys → new !! k = updateFields (form s) !! k)
        ∧ dom (<[(uid u, i) := new]> db) = dom db
        ∧ (∀ key, key ≠ (uid u, i) → <[(uid u, i) := new]> db !! key = db !! key).
Proof.
  intros Hu He Hc Hr.
  split. { rewrite handleSubmit_calls, Hc, Hr, Hu, He. done. }
  split; [apply updateFields_dom |].
  split. { apply updateFields_lookup_other. decide_now. }
  split. { apply updateFields_lookup_other. decide_now. }
  intros newId now db old Hold.
  exists (updateFields (form s) ∪ old).
  simpl. rewrite Hold, resolveTimestamp_updateFields.
  split; [done |].
  assert (Hother : ∀ k, k ∉ updateKeys →
            (updateFields (form s) ∪ old) !! k = old !! k).
  { intros k Hk. apply lookup_union_r. by apply updateFields_lookup_other. }
  split. { apply Hother. decide_now. }
  split; [exact Hother |].
  split.
  { intros k Hk.
    assert (is_Some (updateFields (form s) !! k)) as [v Hv].
    { apply elem_of_dom. rewrite updateFields_dom. by apply elem_of_list_to_set. }
    rewrite Hv. by apply lookup_union_Some_l. }
  split.
  { rewrite dom_insert_L.
    apply subseteq_union_1_L, singleton_subseteq_l, elem_of_dom. eauto. }
  intros key Hkey. by rewrite lookup_insert_ne.
Qed.

Lemma C8_witness :
  (handleSubmit editingState true).2
  = [updateDoc "u1" "d1" (updateFields (form editingState))]
  ∧ ∃ new,
      applyCall "fresh" {| millis := 1800000000000 |} {[ ("u1", "d1") := storedDoc ]}
        (updateDoc "u1" "d1" (updateFields (form editingState)))
      = Some (<[("u1", "d1") := new]> {[ ("u1", "d1") := storedDoc ]})
      ∧ new !! "createdAt" = storedDoc !! "createdAt".
Proof.
  destruct (C8_update_writes_four_fields editingState true {| uid := "u1" |} "d1"
              eq_refl eq_refl eq_refl eq_refl) as (H1 & _ & _ & _ & H2).
  split; [exact H1 |].
  destruct (H2 "fresh" {| millis := 1800000000000 |}
              {[ ("u1", "d1") := storedDoc ]} storedDoc)
    as (new & Hnew & Hc & _).
  { apply lookup_singleton_eq. }
  exists new. split; [exact Hnew | exact Hc].
Defined.

Lemma handleSubmit_error (s : State) (ok : bool) :
  is_empty (trim (f_company (form s))) || is_empty (trim (f_role (form s))) = true →
  error (handleSubmit s ok).1 = Some "Please enter both company and role.".
Proof. unfold handleSubmit. simpl. by intros ->. Qed.

Lemma handleSubmit_signed_out_error (s : State) (ok : bool) :
  user s = None → is_Some (error (handleSubmit s ok).1).
Proof.
  intros Hu. unfold handleSubmit. simpl.
  destruct (is_empty _ || is_empty _); [by eexists |].
  rewrite Hu. by eexists.
Qed.

(** C9: while no user is signed in, no event makes the component call the
    database: a submission (create or update) is turned down with an error
    message and a delete returns at once, the state unchanged.  A submission
    whose company or role is empty after trimming makes no call either and
    sets the inline error, whoever is signed in. *)
Theorem C9_local_guards (s : State) :
  (user s = None →
     (∀ e, (step s e).2 = [])
     ∧ (∀ ok, (handleSubmit s ok).2 = [] ∧ is_Some (error (handleSubmit s ok).1))
     ∧ (∀ docId confirmed ok, handleDelete s docId confirmed ok = (s, [])))
  ∧ (trim (f_company (form s)) = "" ∨ trim (f_role (form s)) = "" →
     ∀ ok, (handleSubmit s ok).2 = []
           ∧ error (handleSubmit s ok).1 = Some "Please enter both company and role.").
Proof.
  split.
  - intros Hu.
    assert (Hs : ∀ ok, (handleSubmit s ok).2 = []).
    { intros ok. rewrite handleSubmit_calls, Hu. by destruct (_ || _). }
    assert (Hd : ∀ docId confirmed ok, handleDelete s docId confirmed ok = (s, [])).
    { intros. unfold handleDelete. by rewrite Hu. }
    split; [| split; [| exact Hd]].
    + intros [u | docs | | f | ok | item | | docId confirmed ok | f q o]; simpl;
        try done; try apply Hs; by rewrite Hd.
    + intros ok. split; [apply Hs | by apply handleSubmit_signed_out_error].
  - intros Hempty ok.
    assert (He : is_empty (trim (f_company (form s)))
                 || is_empty (trim (f_role (form s))) = true).
    { apply orb_true_iff. rewrite !is_empty_spec. exact Hempty. }
    split; [by rewrite handleSubmit_calls, He | by apply handleSubmit_error].
Qed.

Lemma C9_witness :
  (step signedOutState (Submit true)).2 = []
  ∧ handleDelete signedOutState "d1" true true = (signedOutState, [])
  ∧ (handleSubmit blankRoleState true).2 = []
  ∧ error (handleSubmit blankRoleState true).1
    = Some "Please enter both company and role.".
Proof.
  destruct (C9_local_guards signedOutState) as [H1 _].
  destruct (H1 eq_refl) as (Hstep & _ & Hdel).
  destruct (C9_local_guards blankRoleState) as [_ H2].
  destruct (H2 (or_intror eq_refl) true) as [Hcalls Herr].
  split; [apply Hstep |]. split; [apply Hdel |]. split; [exact Hcalls | exact Herr].
Defined.

(** ** The subscription *)

Lemma subscriptionEffect_invariant (s : State) : cacheInvariant (subscriptionEffect s).
Proof.
  unfold cacheInvariant, subscriptionEffect. simpl.
  destruct (user s) eqn:Hu; simpl; by rewrite Hu.
Qed.

Lemma handleSubmit_frame (s : State) (ok : bool) :
  user (handleSubmit s ok).1 = user s
  ∧ internships (handleSubmit s ok).1 = internships s
  ∧ listener (handleSubmit s ok).1 = listener s.
Proof.
  unfold handleSubmit. simpl.
  destruct (is_empty _ || is_empty _); [done |].
  destruct (user s) eqn:Hu; simpl; [| done]. by destruct ok.
Qed.

Lemma handleDelete_frame (s : State) (docId : string) (confirmed ok : bool) :
  user (handleDelete s docId confirmed ok).1 = user s
  ∧ internships (handleDelete s docId confirmed ok).1 = internships s
  ∧ listener (handleDelete s docId confirmed ok).1 = listener s.
Proof.
  unfold handleDelete. destruct (user s) eqn:Hu; [| done].
  destruct confirmed; [| done]. by destruct ok.
Qed.

Lemma step_invariant (s : State) (e : Event) :
  cacheInvariant s → cacheInvariant (step s e).1.
Proof.
  intros Hs. destruct e as [u | docs | | f | ok | item | | docId confirmed ok | f q o];
    simpl; try exact Hs.
  - apply subscriptionEffect_invariant.
  - destruct (listener s) eqn:Hl; [| exact Hs].
    unfold cacheInvariant in *. simpl.
    destruct (user s); [exact Hs | destruct Hs; congruence].
  - destruct (listener s) eqn:Hl; [| exact Hs].
    unfold cacheInvariant in *. simpl.
    destruct (user s); [exact Hs | destruct Hs; congruence].
  - unfold cacheInvariant in *.
    destruct (handleSubmit_frame s ok) as (-> & -> & ->). exact Hs.
  - unfold cacheInvariant in *.
    destruct (handleDelete_frame s docId confirmed ok) as (-> & -> & ->). exact Hs.
Qed.

Lemma run_invariant (s : State) (es : list Event) :
  cacheInvariant s → cacheInvariant (run s es).
Proof.
  revert s. induction es as [|e es IH]; intros s Hs; simpl; [done |].
  by apply IH, step_invariant.
Qed.

(** C10: when the user becomes none, the run of the effect that this change
    triggers empties the cache and leaves no listener registered, whatever
    the cache held; and in every state reached from mounting, through any
    events, no user signed in means an empty cache and no listener, so a
    later snapshot cannot bring records back. *)
Theorem C10_sign_out_clears_cache :
  (∀ s, user (step s (AuthChanged None)).1 = None
        ∧ internships (step s (AuthChanged None)).1 = []
        ∧ listener (step s (AuthChanged None)).1 = None)
  ∧ (∀ u es, user (run (mount u) es) = None →
             internships (run (mount u) es) = []
             ∧ listener (run (mount u) es) = None)
  ∧ (∀ s docs, listener s = None → (step s (SnapshotNext docs)).1 = s).
Proof.
  split; [done |]. split.
  - intros u es Hu.
    pose proof (run_invariant (mount u) es (subscriptionEffect_invariant _)) as H.
    unfold cacheInvariant in H. by rewrite Hu in H.
  - intros s docs Hl. simpl. by rewrite Hl.
Qed.

Lemma C10_witness :
  internships subscribedState = mapSnapshot [pendingDoc; bareDoc]
  ∧ internships (run subscribedState [AuthChanged None; SnapshotNext [bareDoc]]) = []
  ∧ listener (run subscribedState [AuthChanged None; SnapshotNext [bareDoc]]) = None.
Proof.
  split; [reflexivity |].
  apply (proj1 (proj2 C10_sign_out_clears_cache) (Some {| uid := "u1" |})
           [SnapshotNext [pendingDoc; bareDoc]; AuthChanged None;
            SnapshotNext [bareDoc]]).
  reflexivity.
Defined.

(** ** Worked scenarios *)

Example scenario_newest :
  view_list (derive codeUnitCompare [acme; zen] all "" newest) = [zen; acme]
  ∧ map (badge (view_counts (derive codeUnitCompare [acme; zen] all "" newest)))
        all_statuses = [1; 0; 0; 1; 0]%nat.
Proof. split; reflexivity. Qed.

Example scenario_company_az :
  view_list (derive codeUnitCompare [acme; zen] all "" company_az) = [acme; zen].
Proof. reflexivity. Qed.

Example scenario_search :
  view_list (derive codeUnitCompare [acme; zen] all "zen" newest) = [zen].
Proof. reflexivity. Qed.

Example scenario_filter :
  view_list (derive codeUnitCompare [acme; zen] (only offer) "" newest) = [zen]
  ∧ map (badge (view_counts (derive codeUnitCompare [acme; zen] (only offer) "" newest)))
        all_statuses = [1; 0; 0; 1; 0]%nat.
Proof. split; reflexivity. Qed.

(** A search string may match across the separator between two fields. *)
Example scenario_search_spans_fields :
  matchesSearch "acme back" acme = true
  ∧ includes (toLowerCase (company acme)) "acme back" = false
  ∧ includes (toLowerCase (role acme)) "acme back" = false.
Proof. repeat split; reflexivity. Qed.

(* ===================================================================== *)
(** * Further properties *)
(* ===================================================================== *)

(** ** More on [trim] and [toLowerCase] *)

Lemma trimStart_allSpaces (s : string) : allSpaces (trimStart s) = allSpaces s.
Proof.
  induction s as [|c s IH]; simpl; [done |].
  destruct (is_space c) eqn:Hc; simpl; [done | by rewrite Hc].
Qed.

Lemma trimStart_empty (s : string) : trimStart s = "" ↔ allSpaces s = true.
Proof.
  induction s as [|c s IH]; simpl; [done |].
  destruct (is_space c); simpl; [done | split; discriminate].
Qed.

Lemma trimEnd_empty (s : string) : trimEnd s = "" ↔ allSpaces s = true.
Proof.
  induction s as [|c s IH]; simpl; [done |].
  destruct (trimEnd s) eqn:Ht.
  - destruct (is_space c); simpl; [tauto |]. split; discriminate.
  - split; [discriminate |]. rewrite andb_true_iff. intros [_ H].
    apply IH in H. discriminate.
Qed.

Lemma trim_empty (s : string) : trim s = "" ↔ allSpaces s = true.
Proof. unfold trim. by rewrite trimEnd_empty, trimStart_allSpaces. Qed.

Lemma trimStart_firstChar (s : string) (c : ascii) :
  firstChar (trimStart s) = Some c → is_space c = false.
Proof.
  induction s as [|d s IH]; simpl; [done |].
  destruct (is_space d) eqn:Hd; [done |]. simpl. by intros [= <-].
Qed.

Lemma trimEnd_firstChar (s : string) (c : ascii) :
  firstChar s = Some c → is_space c = false → firstChar (trimEnd s) = Some c.
Proof.
  destruct s as [|d s]; simpl; [done |]. intros [= ->] Hc.
  destruct (trimEnd s); [by rewrite Hc | done].
Qed.

Lemma trimEnd_lastChar (s : string) (c : ascii) :
  lastChar (trimEnd s) = Some c → is_space c = false.
Proof.
  induction s as [|d s IH]; simpl; [done |].
  destruct (trimEnd s) as [|e t] eqn:Ht.
  - destruct (is_space d) eqn:Hd; simpl; [done |]. by intros [= <-].
  - simpl. simpl in IH. exact IH.
Qed.

Lemma trim_firstChar (s : string) (c : ascii) :
  firstChar (trim s) = Some c → is_space c = false.
Proof.
  unfold trim. destruct (trimStart s) as [|d t] eqn:Ht; [done |].
  assert (Hd : is_space d = false).
  { apply (trimStart_firstChar s). by rewrite Ht. }
  rewrite (trimEnd_firstChar (String d t) d eq_refl Hd). by intros [= <-].
Qed.

Lemma trim_lastChar (s : string) (c : ascii) :
  lastChar (trim s) = Some c → is_space c = false.
Proof. apply trimEnd_lastChar. Qed.

Lemma trimStart_id (s : string) :
  (∀ c, firstChar s = Some c → is_space c = false) → trimStart s = s.
Proof.
  destruct s as [|c s]; simpl; [done |]. intros H. by rewrite (H c eq_refl).
Qed.

Lemma trimEnd_idem (s : string) : trimEnd (trimEnd s) = trimEnd s.
Proof.
  induction s as [|c s IH]; simpl; [done |].
  destruct (trimEnd s) as [|e t] eqn:Ht.
  - destruct (is_space c) eqn:Hc; simpl; [done | by rewrite Hc].
  - change (trimEnd (String c (String e t)) = String c (String e t)).
    simpl. simpl in IH. by rewrite IH.
Qed.

Lemma trim_idem (s : string) : trim (trim s) = trim s.
Proof.
  unfold trim at 1. rewrite trimStart_id by apply trim_firstChar.
  unfold trim. apply trimEnd_idem.
Qed.

Lemma is_space_lower_char (c : ascii) : is_space (lower_char c) = is_space c.
Proof. destruct c as [[] [] [] [] [] [] [] []]; reflexivity. Qed.

Lemma trimStart_toLowerCase (s : string) :
  trimStart (toLowerCase s) = toLowerCase (trimStart s).
Proof.
  induction s as [|c s IH]; simpl; [done |].
  rewrite is_space_lower_char. by destruct (is_space c).
Qed.

Lemma trimEnd_toLowerCase (s : string) :
  trimEnd (toLowerCase s) = toLowerCase (trimEnd s).
Proof.
  induction s as [|c s IH]; simpl; [done |].
  rewrite IH, is_space_lower_char.
  destruct (trimEnd s); simpl; [by destruct (is_space c) | done].
Qed.

Lemma trim_toLowerCase (s : string) : trim (toLowerCase s) = toLowerCase (trim s).
Proof. unfold trim. by rewrite trimStart_toLowerCase, trimEnd_toLowerCase. Qed.

Lemma trimStart_spaces_app (pad s : string) :
  allSpaces pad = true → trimStart (pad +:+ s) = trimStart s.
Proof.
  induction pad as [|c pad IH]; simpl; [done |].
  rewrite andb_true_iff. intros [-> H]. by apply IH.
Qed.

Lemma trimEnd_app_spaces (s pad : string) :
  allSpaces pad = true → trimEnd (s +:+ pad) = trimEnd s.
Proof.
  intros Hp. induction s as [|c s IH]; simpl.
  - by apply trimEnd_empty.
  - by rewrite IH.
Qed.

Lemma trimStart_app_nonempty (s t : string) :
  allSpaces s = false → trimStart (s +:+ t) = trimStart s +:+ t.
Proof.
  induction s as [|c s IH]; simpl; [done |].
  destruct (is_space c); simpl; [exact IH | done].
Qed.

Lemma trim_padded (pad1 s pad2 : string) :
  allSpaces pad1 = true → allSpaces pad2 = true →
  trim (pad1 +:+ s +:+ pad2) = trim s.
Proof.
  intros H1 H2. unfold trim. rewrite (trimStart_spaces_app pad1) by done.
  destruct (allSpaces s) eqn:Hs.
  - assert (Hall : allSpaces (s +:+ pad2) = true).
    { clear -Hs H2. induction s as [|c s IH]; simpl in *; [done |].
      apply andb_true_iff in Hs as [-> Hs]. by apply IH. }
    transitivity "".
    + apply trimEnd_empty. by rewrite trimStart_allSpaces.
    + symmetry. apply trimEnd_empty. by rewrite trimStart_allSpaces.
  - rewrite trimStart_app_nonempty by done. by apply trimEnd_app_spaces.
Qed.

(** ** Submissions *)

Lemma trim_trimmed (s : string) : trimmed (trim s).
Proof. split; [apply trim_firstChar | apply trim_lastChar]. Qed.

Lemma is_empty_trim (s : string) : is_empty (trim s) = allSpaces s.
Proof.
  destruct (allSpaces s) eqn:Hs.
  - apply is_empty_spec, trim_empty, Hs.
  - destruct (is_empty (trim s)) eqn:He; [| done].
    apply is_empty_spec, trim_empty in He. congruence.
Qed.

Lemma updateFields_lookups (f : Form) :
  updateFields f !! "company" = Some (JsStr (trim (f_company f)))
  ∧ updateFields f !! "role" = Some (JsStr (trim (f_role f)))
  ∧ updateFields f !! "status" = Some (JsStr (status_string (f_status f)))
  ∧ updateFields f !! "notes" = Some (JsStr (trim (f_notes f))).
Proof.
  unfold updateFields.
  repeat split; repeat (rewrite lookup_insert_ne by discriminate);
    apply lookup_insert_eq.
Qed.

Lemma addFields_lookups (f : Form) :
  addFields f !! "company" = Some (JsStr (trim (f_company f)))
  ∧ addFields f !! "role" = Some (JsStr (trim (f_role f)))
  ∧ addFields f !! "status" = Some (JsStr (status_string (f_status f)))
  ∧ addFields f !! "notes" = Some (JsStr (trim (f_notes f)))
  ∧ addFields f !! "createdAt" = Some JsServerTimestamp.
Proof.
  destruct (updateFields_lookups f) as (H1 & H2 & H3 & H4).
  unfold addFields.
  repeat split; try apply lookup_insert_eq;
    by rewrite lookup_insert_ne by discriminate.
Qed.

Lemma handleSubmit_call_fields (s : State) (ok : bool) (c : DbCall) :
  c ∈ (handleSubmit s ok).2 →
  allSpaces (f_company (form s)) = false
  ∧ allSpaces (f_role (form s)) = false
  ∧ callFields c !! "company" = Some (JsStr (trim (f_company (form s))))
  ∧ callFields c !! "role" = Some (JsStr (trim (f_role (form s))))
  ∧ callFields c !! "status" = Some (JsStr (status_string (f_status (form s))))
  ∧ callFields c !! "notes" = Some (JsStr (trim (f_notes (form s)))).
Proof.
  rewrite handleSubmit_calls, !is_empty_trim.
  destruct (allSpaces (f_company (form s))); simpl; [by intros ?%elem_of_nil |].
  destruct (allSpaces (f_role (form s))); simpl; [by intros ?%elem_of_nil |].
  destruct (user s) as [u|]; [| by intros ?%elem_of_nil].
  intros ->%list_elem_of_singleton.
  split; [done |]. split; [done |].
  destruct (editTarget (form s)); simpl.
  - apply updateFields_lookups.
  - destruct (addFields_lookups (form s)) as (? & ? & ? & ? & _). done.
Qed.

(** X1: for company and role over ASCII, a submission reaches the database
    exactly when a user is signed in and company and role each hold a
    character that is not white space; it then makes exactly one call.  The
    validation message is set exactly when company or role is blank. *)
Theorem X1_submission_reaches_database (s : State) (ok : bool) :
  isAscii (f_company (form s)) = true →
  isAscii (f_role (form s)) = true →
  ((∃ c, (handleSubmit s ok).2 = [c]) ↔
     is_Some (user s)
     ∧ allSpaces (f_company (form s)) = false
     ∧ allSpaces (f_role (form s)) = false)
  ∧ ((handleSubmit s ok).2 = [] ∨ ∃ c, (handleSubmit s ok).2 = [c])
  ∧ (error (handleSubmit s ok).1 = Some "Please enter both company and role." ↔
       allSpaces (f_company (form s)) = true ∨ allSpaces (f_role (form s)) = true).
Proof.
  intros _ _. split; [| split].
  - rewrite handleSubmit_calls, !is_empty_trim.
    destruct (allSpaces (f_company (form s))); simpl.
    { split; [intros [c H]; discriminate | intros (_ & H & _); discriminate]. }
    destruct (allSpaces (f_role (form s))); simpl.
    { split; [intros [c H]; discriminate | intros (_ & _ & H); discriminate]. }
    destruct (user s) as [u|].
    + split; [intros _; by repeat split | intros _; by eexists].
    + split; [intros [c H]; discriminate | intros ([? H] & _); discriminate].
  - rewrite handleSubmit_calls.
    destruct (_ || _); [by left |]. destruct (user s); [right; by eexists | by left].
  - unfold handleSubmit. simpl. rewrite !is_empty_trim.
    destruct (allSpaces (f_company (form s))); simpl; [by split; auto |].
    destruct (allSpaces (f_role (form s))); simpl; [by split; auto |].
    destruct (user s); simpl.
    + destruct ok; simpl; (split; [discriminate | intros [?|?]; discriminate]).
    + split; [discriminate | intros [?|?]; discriminate].
Qed.

Lemma X1_witness :
  (handleSubmit creatingState true).2 = []
  ∨ ∃ c, (handleSubmit creatingState true).2 = [c].
Proof.
  exact (proj1 (proj2 (X1_submission_reaches_database creatingState true
                         eq_refl eq_refl))).
Defined.

(** X2: for form fields over ASCII, whatever a submission writes, create or
    update, the company and the role it passes are non-empty strings without
    white space at either end, and the notes are a string without white space
    at either end. *)
Theorem X2_written_fields_are_tidy (s : State) (ok : bool) (c : DbCall) :
  isAscii (f_company (form s)) = true →
  isAscii (f_role (form s)) = true →
  isAscii (f_notes (form s)) = true →
  c ∈ (handleSubmit s ok).2 →
  (∃ co, callFields c !! "company" = Some (JsStr co) ∧ co ≠ "" ∧ trimmed co)
  ∧ (∃ ro, callFields c !! "role" = Some (JsStr ro) ∧ ro ≠ "" ∧ trimmed ro)
  ∧ (∃ no, callFields c !! "notes" = Some (JsStr no) ∧ trimmed no).
Proof.
  intros _ _ _ Hc. destruct (handleSubmit_call_fields s ok c Hc)
    as (Hco & Hro & H1 & H2 & _ & H4).
  assert (Hne : ∀ x, allSpaces x = false → trim x ≠ "").
  { intros x Hx Ht. apply trim_empty in Ht. congruence. }
  split; [| split].
  - eexists. split; [exact H1 |]. split; [by apply Hne | apply trim_trimmed].
  - eexists. split; [exact H2 |]. split; [by apply Hne | apply trim_trimmed].
  - eexists. split; [exact H4 | apply trim_trimmed].
Qed.

Lemma X2_witness :
  ∃ co, callFields (addDoc "u1" (addFields (form creatingState))) !! "company"
        = Some (JsStr co) ∧ co ≠ "" ∧ trimmed co.
Proof.
  apply (X2_written_fields_are_tidy creatingState true
           (addDoc "u1" (addFields (form creatingState))) eq_refl eq_refl eq_refl).
  rewrite handleSubmit_calls. simpl. left.
Defined.

Lemma status_of_val_status_string (st : InternshipStatus) :
  status_of_val (JsStr (status_string st)) = Some st.
Proof. by destruct st. Qed.

Lemma trimEnd_id (s : string) :
  (∀ a, lastChar s = Some a → is_space a = false) → trimEnd s = s.
Proof.
  induction s as [|c s IH]; simpl; [done |]. intros H.
  destruct s as [|d s].
  - simpl. by rewrite (H c eq_refl).
  - rewrite IH by exact H. done.
Qed.

Lemma trimmed_trim (s : string) : trimmed s → trim s = s.
Proof.
  intros [H1 H2]. unfold trim. rewrite trimStart_id by exact H1.
  by apply trimEnd_id.
Qed.

Lemma trimmed_not_blank (s : string) : s ≠ "" → trimmed s → allSpaces s = false.
Proof.
  intros Hne Ht. destruct (allSpaces s) eqn:Hs; [| done].
  apply trim_empty in Hs. rewrite (trimmed_trim s Ht) in Hs. done.
Qed.



Lemma editTarget_handleEdit (item : Internship) (s : State) :
  editTarget (form (handleEdit item s))
  = if truthy (id item) then Some (id item) else None.
Proof. done. Qed.







(** ** Who changes what *)

(** X7: the cache is written only by the listener callback and by the
    subscription effect: whatever else happens (form input, submit, edit,
    cancel, delete, a change of filter, search or sort) leaves the cached
    list as it was, whether or not the database call succeeds.  Likewise only
    a change of user changes the user and the listener, only the selection
    event changes filter, search string and sort option, and snapshots never
    touch the form. *)
Theorem X7_single_writer (s : State) (e : Event) :
  ((∀ u, e ≠ AuthChanged u) → (∀ docs, e ≠ SnapshotNext docs) →
     internships (step s e).1 = internships s)
  ∧ ((∀ u, e ≠ AuthChanged u) →
       user (step s e).1 = user s ∧ listener (step s e).1 = listener s)
  ∧ ((∀ f q o, e ≠ Select f q o) →
       statusFilter (step s e).1 = statusFilter s
       ∧ searchTerm (step s e).1 = searchTerm s
       ∧ sortOption (step s e).1 = sortOption s)
  ∧ (∀ docs, form (step s (SnapshotNext docs)).1 = form s)
  ∧ form (step s SnapshotError).1 = form s.
Proof.
  assert (Hsub : ∀ ok, statusFilter (handleSubmit s ok).1 = statusFilter s
            ∧ searchTerm (handleSubmit s ok).1 = searchTerm s
            ∧ sortOption (handleSubmit s ok).1 = sortOption s).
  { intros ok. unfold handleSubmit. simpl.
    destruct (is_empty _ || is_empty _); [done |].
    destruct (user s) eqn:Hu; simpl; [| done]. by destruct ok. }
  assert (Hdel : ∀ i c ok, statusFilter (handleDelete s i c ok).1 = statusFilter s
            ∧ searchTerm (handleDelete s i c ok).1 = searchTerm s
            ∧ sortOption (handleDelete s i c ok).1 = sortOption s).
  { intros i c ok. unfold handleDelete. destruct (user s); [| done].
    destruct c; [| done]. by destruct ok. }
  split; [| split; [| split; [| split]]].
  - intros Ha Hn.
    destruct e as [u | docs | | f | ok | item | | i c ok | f q o]; simpl; try done.
    + by destruct (Ha u).
    + by destruct (Hn docs).
    + by destruct (listener s).
    + apply handleSubmit_frame.
    + apply handleDelete_frame.
  - intros Ha.
    destruct e as [u | docs | | f | ok | item | | i c ok | f q o]; simpl; try done.
    + by destruct (Ha u).
    + destruct (listener s) eqn:Hl; simpl; by rewrite ?Hl.
    + destruct (listener s) eqn:Hl; simpl; by rewrite ?Hl.
    + destruct (handleSubmit_frame s ok) as (? & _ & ?). done.
    + destruct (handleDelete_frame s i c ok) as (? & _ & ?). done.
  - intros Hs.
    destruct e as [u | docs | | f | ok | item | | i c ok | f q o]; simpl; try done.
    + unfold subscriptionEffect. simpl. by destruct u.
    + by destruct (listener s).
    + by destruct (listener s).
    + by destruct (Hs f q o).
  - intros docs. simpl. by destruct (listener s).
  - simpl. by destruct (listener s).
Qed.

Lemma X7_witness :
  internships (step subscribedState (Submit false)).1 = internships subscribedState.
Proof.
  apply (proj1 (X7_single_writer subscribedState (Submit false))); discriminate.
Defined.

(** X8: in every state reached from mounting, the registered listener is
    the one on the signed-in user's collection, and there is none when
    nobody is signed in.  A change to another signed-in user moves the
    listener to that user at once, while the cached list keeps the previous
    records until the next snapshot arrives. *)
Theorem X8_listener_follows_user :
  (∀ u es, listener (run (mount u) es) = uid <$> user (run (mount u) es))
  ∧ (∀ s u, listener (step s (AuthChanged (Some u))).1 = Some (uid u)
            ∧ internships (step s (AuthChanged (Some u))).1 = internships s)
  ∧ (∀ s docs, is_Some (listener s) →
        internships (step s (SnapshotNext docs)).1 = mapSnapshot docs
        ∧ loadingList (step s (SnapshotNext docs)).1 = false).
Proof.
  split; [| split].
  - intros u es.
    pose proof (run_invariant (mount u) es (subscriptionEffect_invariant _)) as H.
    unfold cacheInvariant in H.
    destruct (user (run (mount u) es)); simpl; [done | by destruct H].
  - done.
  - intros s docs [l Hl]. simpl. by rewrite Hl.
Qed.

Lemma X8_witness :
  internships (step (mount (Some {| uid := "u1" |})) (SnapshotNext [bareDoc])).1
  = mapSnapshot [bareDoc].
Proof.
  apply (proj2 (proj2 X8_listener_follows_user)
           (mount (Some {| uid := "u1" |})) [bareDoc]).
  exists "u1". reflexivity.
Defined.

(** X9: with a user signed in, a delete calls the database exactly when the
    confirmation is accepted, and then once, for the clicked document; the
    form and the cache are not touched, and an error is shown only when the
    call rejects.  On the database the call removes that document and no
    other, and removing a document that is not there changes nothing. *)
Theorem X9_delete (s : State) (u : User) (docId : string) (confirmed ok : bool) :
  user s = Some u →
  (handleDelete s docId confirmed ok).2
  = (if confirmed then [deleteDoc (uid u) docId] else [])
  ∧ (handleDelete s docId confirmed ok).1
    = (if confirmed && negb ok
       then setError (Some "Failed to delete internship. Please try again.") s
       else s)
  ∧ ∀ (newId : string) (now : Timestamp) (db : Firestore),
      ∃ db', applyCall newId now db (deleteDoc (uid u) docId) = Some db'
             ∧ db' !! (uid u, docId) = None
             ∧ (∀ key, key ≠ (uid u, docId) → db' !! key = db !! key)
             ∧ (db !! (uid u, docId) = None → db' = db).
Proof.
  intros Hu. unfold handleDelete. rewrite Hu.
  split; [by destruct confirmed |]. split; [by destruct confirmed, ok |].
  intros newId now db. exists (delete (uid u, docId) db).
  split; [done |]. split; [apply lookup_delete_eq |].
  split; [intros key Hkey; by apply lookup_delete_ne |].
  apply delete_id.
Qed.

Lemma X9_witness :
  (handleDelete editingState "d1" false true).2 = []
  ∧ (handleDelete editingState "d1" true true).2 = [deleteDoc "u1" "d1"].
Proof.
  split.
  - apply (proj1 (X9_delete editingState {| uid := "u1" |} "d1" false true eq_refl)).
  - apply (proj1 (X9_delete editingState {| uid := "u1" |} "d1" true true eq_refl)).
Defined.

(** ** The rows a render shows *)

Lemma matchesSearch_blank (q : string) (item : Internship) :
  allSpaces q = true → matchesSearch q item = true.
Proof.
  intros Hq. unfold matchesSearch, normalizedSearch.
  apply trim_empty in Hq. by rewrite Hq.
Qed.

Lemma List_filter_all {A} (p : A → bool) (l : list A) :
  (∀ x, p x = true) → List.filter p l = l.
Proof.
  intros Hp. induction l as [|x l IH]; simpl; [done |]. by rewrite Hp, IH.
Qed.

Lemma filteredInternships_blank (l : list Internship) (f : StatusFilter) (q : string) :
  allSpaces q = true →
  filteredInternships l f q = List.filter (matchesStatus f) l.
Proof.
  intros Hq. unfold filteredInternships. apply List.filter_ext.
  intros item. by rewrite matchesSearch_blank, andb_true_r.
Qed.

Lemma sortedInternships_Permutation (localeCompare : string → string → Z)
    (l : list Internship) (o : SortOption) :
  sortedInternships localeCompare l o ≡ₚ l.
Proof. apply array_sort_Permutation. Qed.






Lemma Rt_filteredInternships_cons (hostTrim hostLower : string → string)
    (stringOf : JsVal → string) (item : Item) (l : list Item)
    (f : StatusFilter) (q : string) :
  Rt.filteredInternships hostTrim hostLower stringOf (item :: l) f q
  = if Rt.matchesStatus f item && Rt.matchesSearch hostTrim hostLower stringOf q item
    then item :: Rt.filteredInternships hostTrim hostLower stringOf l f q
    else Rt.filteredInternships hostTrim hostLower stringOf l f q.
Proof. reflexivity. Qed.

(** X13: for any search string, the numbers of cached records that pass the
    search under each of the five status chips add up to the number of those
    passing under [all] whose status is one of the five literals; that is
    the number passing under [all] when every cached status is one of them,
    and never more.  Whenever the sort returns, it returns as many rows as
    records passed. *)
Theorem X13_chips_partition_all (hostTrim hostLower : string → string)
    (localeCompare : string → string → Z) (stringOf : JsVal → string)
    (items : list Item) (q : string) :
  let passing f := Rt.filteredInternships hostTrim hostLower stringOf items f q in
  (length (passing (only applied)) + length (passing (only online_assessment))
   + length (passing (only interview)) + length (passing (only offer))
   + length (passing (only rejected))
   = length (List.filter knownStatus (passing all)))%nat
  ∧ (length (passing (only applied)) + length (passing (only online_assessment))
     + length (passing (only interview)) + length (passing (only offer))
     + length (passing (only rejected))
     ≤ length (passing all))%nat
  ∧ (Forall (λ i, is_InternshipStatus (item_status i)) items →
     (length (passing (only applied)) + length (passing (only online_assessment))
      + length (passing (only interview)) + length (passing (only offer))
      + length (passing (only rejected))
      = length (passing all))%nat)
  ∧ (∀ f o rows,
       Rt.sortedInternships hostLower localeCompare (passing f) o = Some rows →
       length rows = length (passing f)).
Proof.
  cbv zeta.
  assert (Hsum :
    (length (Rt.filteredInternships hostTrim hostLower stringOf items (only applied) q)
     + length (Rt.filteredInternships hostTrim hostLower stringOf items
                 (only online_assessment) q)
     + length (Rt.filteredInternships hostTrim hostLower stringOf items (only interview) q)
     + length (Rt.filteredInternships hostTrim hostLower stringOf items (only offer) q)
     + length (Rt.filteredInternships hostTrim hostLower stringOf items (only rejected) q)
     = length (List.filter knownStatus
                 (Rt.filteredInternships hostTrim hostLower stringOf items all q)))%nat).
  { induction items as [|item l IH]; [done |].
    rewrite !Rt_filteredInternships_cons.
    destruct (Rt.matchesSearch hostTrim hostLower stringOf q item);
      rewrite ?andb_false_r, ?andb_true_r; [| exact IH].
    unfold Rt.matchesStatus. rewrite !strictEq_status_of_val.
    cbn [List.filter]. unfold knownStatus at 1, is_InternshipStatus.
    destruct (status_of_val (item_status item)) as [m|].
    - rewrite (bool_decide_eq_true_2 (is_Some (Some m))) by by eexists.
      destruct m; repeat case_bool_decide; try congruence;
        cbn [length]; lia.
    - rewrite (bool_decide_eq_false_2 (is_Some None)) by by intros [? ?].
      repeat case_bool_decide; try congruence; cbn [length]; lia. }
  split; [exact Hsum |]. split; [| split].
  - rewrite Hsum. apply filter_length_le.
  - intros Hall. rewrite Hsum. f_equal. apply filter_knownStatus_all.
    rewrite Forall_forall in Hall |- *. intros x Hx. apply Hall.
    unfold Rt.filteredInternships in Hx.
    apply list_elem_of_In, filter_In in Hx as [Hx _]. by apply list_elem_of_In.
  - intros f o rows H. apply Permutation_length.
    by apply (array_sort_throwing_Permutation _ _ _ H).
Qed.

Lemma X13_witness :
  (length (Rt.filteredInternships trim toLowerCase sampleStringOf
             (mapSnapshot [bareDoc; resolvedDoc]) (only applied) "")
   + length (Rt.filteredInternships trim toLowerCase sampleStringOf
               (mapSnapshot [bareDoc; resolvedDoc]) (only online_assessment) "")
   + length (Rt.filteredInternships trim toLowerCase sampleStringOf
               (mapSnapshot [bareDoc; resolvedDoc]) (only interview) "")
   + length (Rt.filteredInternships trim toLowerCase sampleStringOf
               (mapSnapshot [bareDoc; resolvedDoc]) (only offer) "")
   + length (Rt.filteredInternships trim toLowerCase sampleStringOf
               (mapSnapshot [bareDoc; resolvedDoc]) (only rejected) "")
   = length (Rt.filteredInternships trim toLowerCase sampleStringOf
               (mapSnapshot [bareDoc; resolvedDoc]) all ""))%nat.
Proof.
  apply (proj1 (proj2 (proj2 (X13_chips_partition_all trim toLowerCase
                                codeUnitCompare sampleStringOf
                                (mapSnapshot [bareDoc; resolvedDoc]) "")))).
  repeat constructor; by eexists.
Defined.

(** A cached record whose status is none of the five is shown under [all]
    and under no chip. *)
Example chips_miss_a_record :
  length (Rt.filteredInternships trim toLowerCase sampleStringOf
            (internships subscribedState) all "") = 2%nat
  ∧ ∀ s, length (Rt.filteredInternships trim toLowerCase sampleStringOf
                   (internships subscribedState) (only s) "")
         = if bool_decide (s = applied) then 1%nat else 0%nat.
Proof. split; [reflexivity |]. intros []; reflexivity. Qed.

(** ** More on the order of the rows *)

Section ComparatorFacts.
Variable localeCompare : string → string → Z.
Hypothesis localeCompare_swap :
  ∀ a b, localeCompare a b < 0 ↔ 0 < localeCompare b a.
Hypothesis localeCompare_trans :
  ∀ a b c, localeCompare a b ≤ 0 → localeCompare b c ≤ 0 → localeCompare a c ≤ 0.

Lemma compareFn_swap (o : SortOption) (a b : Internship) :
  compareFn localeCompare o a b < 0 ↔ 0 < compareFn localeCompare o b a.
Proof using localeCompare_swap.
  destruct o; simpl; try lia; apply localeCompare_swap.
Qed.

Lemma compareFn_total (o : SortOption) (a b : Internship) :
  compareFn localeCompare o a b ≤ 0 ∨ compareFn localeCompare o b a ≤ 0.
Proof using localeCompare_swap.
  pose proof (compareFn_swap o b a). lia.
Qed.

Lemma compareFn_trans (o : SortOption) (a b c : Internship) :
  compareFn localeCompare o a b ≤ 0 → compareFn localeCompare o b c ≤ 0 →
  compareFn localeCompare o a c ≤ 0.
Proof using localeCompare_trans.
  destruct o; simpl; try lia.
  - apply localeCompare_trans.
  - intros H1 H2. exact (localeCompare_trans _ _ _ H2 H1).
Qed.

Lemma sortedInternships_StronglySorted (l : list Internship) (o : SortOption) :
  StronglySorted (before (compareFn localeCompare o))
                 (sortedInternships localeCompare l o).
Proof using localeCompare_swap localeCompare_trans.
  apply array_sort_StronglySorted; [apply compareFn_total | apply compareFn_trans].
Qed.

(** X14: with a consistent [localeCompare], the [company-az] rows are in
    ascending order of the lower-cased company name (no row compares after a
    row below it), and the [company-za] rows in descending order. *)
Theorem X14_company_order (filtered : list Internship) (i j : nat)
    (a b : Internship) :
  (i < j)%nat →
  (sortedInternships localeCompare filtered company_az !! i = Some a →
   sortedInternships localeCompare filtered company_az !! j = Some b →
   localeCompare (toLowerCase (company a)) (toLowerCase (company b)) ≤ 0)
  ∧ (sortedInternships localeCompare filtered company_za !! i = Some a →
     sortedInternships localeCompare filtered company_za !! j = Some b →
     localeCompare (toLowerCase (company b)) (toLowerCase (company a)) ≤ 0).
Proof using localeCompare_swap localeCompare_trans.
  intros Hij. split; intros Hi Hj.
  - exact (StronglySorted_lookup_lt _ _ _ _ _ _
             (sortedInternships_StronglySorted filtered company_az) Hi Hj Hij).
  - exact (StronglySorted_lookup_lt _ _ _ _ _ _
             (sortedInternships_StronglySorted filtered company_za) Hi Hj Hij).
Qed.

(** X15: with a consistent [localeCompare], rows whose company names compare
    equal keep the order they have in the filtered list, under [company-az]
    and under [company-za]: the sort is stable. *)
Theorem X15_company_ties_keep_order (filtered : list Internship) (x : Internship) :
  List.filter (λ y, localeCompare (toLowerCase (company x)) (toLowerCase (company y)) =? 0)
              (sortedInternships localeCompare filtered company_az)
  = List.filter (λ y, localeCompare (toLowerCase (company x)) (toLowerCase (company y)) =? 0)
                filtered
  ∧ List.filter (λ y, localeCompare (toLowerCase (company y)) (toLowerCase (company x)) =? 0)
                (sortedInternships localeCompare filtered company_za)
    = List.filter (λ y, localeCompare (toLowerCase (company y)) (toLowerCase (company x)) =? 0)
                  filtered.
Proof using localeCompare_swap localeCompare_trans.
  split.
  - apply (array_sort_stable (compareFn localeCompare company_az)
             (compareFn_trans company_az) (compareFn_swap company_az) x).
  - apply (array_sort_stable (compareFn localeCompare company_za)
             (compareFn_trans company_za) (compareFn_swap company_za) x).
Qed.

(** X16: with a consistent [localeCompare], sorting rows that are already
    sorted by the same option changes nothing. *)
Theorem X16_sort_twice (l : list Internship) (o : SortOption) :
  sortedInternships localeCompare (sortedInternships localeCompare l o) o
  = sortedInternships localeCompare l o.
Proof using localeCompare_swap localeCompare_trans.
  apply array_sort_sorted_id, sortedInternships_StronglySorted.
Qed.
End ComparatorFacts.

Lemma X14_witness :
  codeUnitCompare (toLowerCase (company acme)) (toLowerCase (company zen)) ≤ 0.
Proof.
  apply (proj1 (X14_company_order codeUnitCompare codeUnitCompare_swap
                  codeUnitCompare_trans [zen; acme] 0 1 acme zen
                  (Nat.lt_0_succ 0)));
    reflexivity.
Defined.

Lemma X15_witness :
  List.filter (λ y, codeUnitCompare (toLowerCase (company acme)) (toLowerCase (company y)) =? 0)
              (sortedInternships codeUnitCompare [zen; acmeTwin; acme] company_az)
  = [acmeTwin; acme].
Proof.
  rewrite (proj1 (X15_company_ties_keep_order codeUnitCompare codeUnitCompare_swap
                    codeUnitCompare_trans [zen; acmeTwin; acme] acme)).
  reflexivity.
Defined.

Lemma X16_witness :
  sortedInternships codeUnitCompare
    (sortedInternships codeUnitCompare [zen; acmeTwin; acme] company_za) company_za
  = sortedInternships codeUnitCompare [zen; acmeTwin; acme] company_za.
Proof.
  apply (X16_sort_twice codeUnitCompare codeUnitCompare_swap codeUnitCompare_trans).
Defined.

(** X17: under [newest] and under [oldest], rows created at the same time,
    all the rows still pending among them, keep the order they have in the
    filtered list, whatever [localeCompare] is. *)
Theorem X17_time_ties_keep_order (localeCompare : string → string → Z)
    (filtered : list Internship) (t : Z) :
  List.filter (λ y, getTime y =? t) (sortedInternships localeCompare filtered newest)
  = List.filter (λ y, getTime y =? t) filtered
  ∧ List.filter (λ y, getTime y =? t) (sortedInternships localeCompare filtered oldest)
    = List.filter (λ y, getTime y =? t) filtered.
Proof.
  set (x := {| id := ""; company := ""; role := ""; status := applied;
               notes := None; createdAt := Some {| millis := t |} |}).
  assert (Hext : ∀ o l, o = newest ∨ o = oldest →
            List.filter (λ y, getTime y =? t) l
            = List.filter (λ y, compareFn localeCompare o x y =? 0) l).
  { intros o l Ho. apply List.filter_ext. intros y.
    destruct Ho as [-> | ->]; simpl; change (getTime x) with t;
      apply eq_iff_eq_true; rewrite !Z.eqb_eq; lia. }
  split.
  - rewrite !(Hext newest) by auto.
    apply array_sort_stable; simpl; intros; lia.
  - rewrite !(Hext oldest) by auto.
    apply array_sort_stable; simpl; intros; lia.
Qed.

Example time_sort_with_ties :
  sortedInternships codeUnitCompare [acmeTwin; zen; acme; pendingRecord] newest
  = [zen; acmeTwin; acme; pendingRecord]
  ∧ sortedInternships codeUnitCompare [acmeTwin; zen; acme; pendingRecord] oldest
    = [pendingRecord; acmeTwin; acme; zen].
Proof. split; reflexivity. Qed.

(** X18: when the creation times of the filtered records (pending counted as
    zero) are pairwise different, the [newest] rows are exactly the [oldest]
    rows in reverse. *)
Theorem X18_newest_reverses_oldest (localeCompare : string → string → Z)
    (filtered : list Internship) :
  distinctTimes filtered →
  sortedInternships localeCompare filtered newest
  = reverse (sortedInternships localeCompare filtered oldest).
Proof.
  intros Hdist.
  set (R := before (compareFn localeCompare newest)).
  assert (Htr : Transitive R).
  { intros x y z. unfold R, before. simpl. lia. }
  apply (StronglySorted_unique_strong R).
  - intros x1 x2 H1 H2 R12 R21.
    unfold sortedInternships in H1, H2.
    rewrite (array_sort_Permutation _ filtered) in H1.
    rewrite reverse_Permutation, (array_sort_Permutation _ filtered) in H2.
    apply list_elem_of_lookup in H1 as [i Hi].
    apply list_elem_of_lookup in H2 as [j Hj].
    destruct (decide (i = j)) as [-> | Hij]; [congruence |].
    exfalso. apply (Hdist i j x1 x2 Hi Hj Hij).
    unfold R, before in R12, R21. simpl in R12, R21. lia.
  - apply array_sort_StronglySorted; simpl; intros; lia.
  - apply Sorted_StronglySorted; [done |].
    apply (Sorted_reverse (before (compareFn localeCompare oldest))).
    apply StronglySorted_Sorted, array_sort_StronglySorted; simpl; intros; lia.
  - unfold sortedInternships.
    by rewrite reverse_Permutation, !array_sort_Permutation.
Qed.

Lemma X18_witness :
  sortedInternships codeUnitCompare [acme; pendingRecord; zen] newest
  = reverse (sortedInternships codeUnitCompare [acme; pendingRecord; zen] oldest).
Proof.
  apply (X18_newest_reverses_oldest codeUnitCompare).
  intros i j x y Hi Hj Hij.
  destruct i as [|[|[|i]]]; destruct j as [|[|[|j]]];
    simpl in Hi, Hj; try discriminate; try lia;
    injection Hi as <-; injection Hj as <-; vm_compute; discriminate.
Defined.

(** With a tie the two outputs are not reverses of each other: both keep the
    tied rows in cache order. *)
Example newest_oldest_with_tie :
  sortedInternships codeUnitCompare [acmeTwin; acme] newest = [acmeTwin; acme]
  ∧ sortedInternships codeUnitCompare [acmeTwin; acme] oldest = [acmeTwin; acme].
Proof. split; reflexivity. Qed.

(** ** More on the search *)

Lemma normalizedSearch_fold (q q' : string) :
  toLowerCase q = toLowerCase q' → normalizedSearch q = normalizedSearch q'.
Proof.
  intros H. unfold normalizedSearch. by rewrite <- !trim_toLowerCase, H.
Qed.

Lemma haystack_app (item : Internship) :
  haystack item
  = toLowerCase (company item) +:+ " " +:+ toLowerCase (role item) +:+ " "
    +:+ toLowerCase (default "" (notes item)).
Proof. unfold haystack. by rewrite !toLowerCase_app. Qed.

Lemma string_app_assoc (a b c : string) : (a +:+ b) +:+ c = a +:+ (b +:+ c).
Proof.
  induction a as [|x a IH]; [done |].
  change (String x ((a +:+ b) +:+ c) = String x (a +:+ (b +:+ c))). by f_equal.
Qed.

Lemma includes_trans (a b c : string) :
  includes a b = true → includes b c = true → includes a c = true.
Proof.
  rewrite !includes_spec. intros (p & s & ->) (p' & s' & ->).
  exists (p +:+ p'), (s' +:+ s). by rewrite !string_app_assoc.
Qed.

(** X19: the search does not depend on the letter case of what is typed nor
    on white space around it, and not on the letter case of the record's
    company, role and notes. *)
Theorem X19_search_ignores_case_and_padding (q q' pad1 pad2 : string)
    (item item' : Internship) :
  (toLowerCase q = toLowerCase q' → matchesSearch q item = matchesSearch q' item)
  ∧ (allSpaces pad1 = true → allSpaces pad2 = true →
       matchesSearch (pad1 +:+ q +:+ pad2) item = matchesSearch q item)
  ∧ (toLowerCase (company item) = toLowerCase (company item') →
     toLowerCase (role item) = toLowerCase (role item') →
     toLowerCase (default "" (notes item)) = toLowerCase (default "" (notes item')) →
     matchesSearch q item = matchesSearch q item').
Proof.
  split; [| split].
  - intros H. unfold matchesSearch. by rewrite (normalizedSearch_fold q q' H).
  - intros H1 H2. unfold matchesSearch, normalizedSearch.
    by rewrite (trim_padded pad1 q pad2 H1 H2).
  - intros Hc Hr Hn. unfold matchesSearch.
    by rewrite (haystack_app item), (haystack_app item'), Hc, Hr, Hn.
Qed.

Lemma X19_witness :
  matchesSearch "  ZEN " zen = matchesSearch "zen" zen.
Proof.
  transitivity (matchesSearch "ZEN" zen).
  - apply (proj1 (proj2 (X19_search_ignores_case_and_padding "ZEN" "" "  " " " zen zen)));
      reflexivity.
  - apply (proj1 (X19_search_ignores_case_and_padding "ZEN" "zen" "" "" zen zen)).
    reflexivity.
Defined.

(** X20: for strings over ASCII, a record is found whenever the normalised
    search string occurs, letter case disregarded, in its company, in its
    role or in its notes. *)
Theorem X20_field_match_suffices (q : string) (item : Internship) :
  isAscii q = true →
  isAscii (company item) = true →
  isAscii (role item) = true →
  isAscii (default "" (notes item)) = true →
  occursIgnoringCase (normalizedSearch q) (company item)
  ∨ occursIgnoringCase (normalizedSearch q) (role item)
  ∨ occursIgnoringCase (normalizedSearch q) (default "" (notes item)) →
  matchesSearch q item = true.
Proof.
  intros _ _ _ _ H. unfold matchesSearch. apply orb_true_iff. right.
  rewrite haystack_app.
  assert (Hn : toLowerCase (normalizedSearch q) = normalizedSearch q)
    by apply toLowerCase_idem.
  apply includes_spec.
  destruct H as [H | [H | H]]; destruct H as (p & m & s & -> & Hm);
    rewrite Hn in Hm; rewrite !toLowerCase_app, Hm.
  - exists (toLowerCase p). eexists. rewrite ?string_app_assoc. reflexivity.
  - exists (toLowerCase (company item) +:+ " " +:+ toLowerCase p). eexists.
    rewrite ?string_app_assoc. reflexivity.
  - exists (toLowerCase (company item) +:+ " " +:+ toLowerCase (role item) +:+ " "
            +:+ toLowerCase p), (toLowerCase s).
    rewrite ?string_app_assoc. reflexivity.
Qed.

Lemma X20_witness : matchesSearch " DATA" zen = true.
Proof.
  apply X20_field_match_suffices; try reflexivity. right. left.
  exists "", "Data", "". split; reflexivity.
Defined.

(** X21: whatever the host's [trim] and [toLowerCase] are, a cached record
    found for a search string is found for every search string whose
    normalised form occurs in the normalised form of the first. *)
Theorem X21_shorter_search_finds_more (hostTrim hostLower : string → string)
    (stringOf : JsVal → string) (q q' : string) (item : Item) :
  includes (hostLower (hostTrim q)) (hostLower (hostTrim q')) = true →
  Rt.matchesSearch hostTrim hostLower stringOf q item = true →
  Rt.matchesSearch hostTrim hostLower stringOf q' item = true.
Proof.
  unfold Rt.matchesSearch, Rt.normalizedSearch. intros Hin H.
  apply orb_true_iff in H as [H | H]; apply orb_true_iff.
  - apply is_empty_spec in H. rewrite H in Hin. simpl in Hin.
    rewrite orb_false_r in Hin. left.
    destruct (hostLower (hostTrim q')); [done | discriminate].
  - right. by apply (includes_trans _ (hostLower (hostTrim q))).
Qed.

Lemma X21_witness :
  Rt.matchesSearch trim toLowerCase sampleStringOf "ac" (mapDoc pendingDoc) = true.
Proof.
  apply (X21_shorter_search_finds_more trim toLowerCase sampleStringOf
           "Acme I" "ac" (mapDoc pendingDoc)); reflexivity.
Defined.

(** ** Placeholders and routes *)

Lemma view_list_nil (localeCompare : string → string → Z) (l : list Internship)
    (f : StatusFilter) (q : string) (o : SortOption) :
  view_list (derive localeCompare l f q o) = [] ↔
  ∀ item, item ∈ l → matchesStatus f item && matchesSearch q item = false.
Proof.
  simpl. split.
  - intros Hnil item Hin.
    destruct (matchesStatus f item && matchesSearch q item) eqn:Hp; [| done].
    assert (item ∈ sortedInternships localeCompare (filteredInternships l f q) o).
    { rewrite sortedInternships_Permutation. apply filteredInternships_elem_of.
      by apply andb_true_iff in Hp as [? ?]. }
    rewrite Hnil in H. by apply elem_of_nil in H.
  - intros Hnone. apply Permutation_nil_r.
    rewrite sortedInternships_Permutation.
    destruct (filteredInternships l f q) as [|item rest] eqn:Hf; [done |].
    assert (Hin : item ∈ filteredInternships l f q) by (rewrite Hf; left).
    apply filteredInternships_elem_of in Hin as (Hin & H1 & H2).
    specialize (Hnone item Hin). rewrite H1, H2 in Hnone. discriminate.
Qed.


(** X23: the gate and the sign-in page never send the router back and
    forth.  With the session resolved, one redirect at most settles the
    location: the dashboard route for a signed-in user, the sign-in route
    otherwise; while the session is resolving nobody redirects.  Whenever the
    gate renders the dashboard, the dashboard shows its main view, never its
    own "Loading..." or "You are not logged in." *)
Theorem X23_routes_settle (user : option User) (loading : bool) (loc : Location) :
  route user loading (route user loading loc) = route user loading loc
  ∧ (loading = true → route user loading loc = loc)
  ∧ (loading = false →
       route user loading loc
       = match user with Some _ => RootPath | None => AuthPath end)
  ∧ (RequireAuth user loading = GateChildren ↔ loading = false ∧ is_Some user)
  ∧ (RequireAuth user loading = GateChildren →
       dashboardView user loading = DashboardMain)
  ∧ (RequireAuth user loading = NavigateToAuth →
       authPageNavigates user loading = false).
Proof.
  destruct loading, user as [u|], loc; simpl; repeat split; try done;
    try (intros [_ [? ?]]; done); try (intros _; by eexists);
    try (intros [? _]; done).
Qed.

(** ** The snapshot mapping, field by field *)

(** X24: the mapping keeps the documents' identifiers, number and order;
    in a mapped record company, role, status and notes are never [undefined]
    or [null] and [createdAt] is never [undefined]; a stored value that is
    neither is carried over as it is, also when it is not of the declared
    type. *)
Theorem X24_mapSnapshot_fields (docs : list DocSnap) :
  map item_id (mapSnapshot docs) = map snap_id docs
  ∧ length (mapSnapshot docs) = length docs
  ∧ (∀ it, it ∈ mapSnapshot docs →
       Forall (λ v, v ≠ JsUndefined ∧ v ≠ JsNull)
              [item_company it; item_role it; item_status it; item_notes it]
       ∧ item_createdAt it ≠ JsUndefined)
  ∧ (∀ d, d ∈ docs →
       ∀ key v, snap_data d !! key = Some v → v ≠ JsUndefined → v ≠ JsNull →
         (key = "company" → item_company (mapDoc d) = v)
         ∧ (key = "role" → item_role (mapDoc d) = v)
         ∧ (key = "status" → item_status (mapDoc d) = v)
         ∧ (key = "notes" → item_notes (mapDoc d) = v)
         ∧ (key = "createdAt" → item_createdAt (mapDoc d) = v)).
Proof.
  assert (Hn : ∀ v d, d ≠ JsUndefined → d ≠ JsNull →
            nullish v d ≠ JsUndefined ∧ nullish v d ≠ JsNull).
  { intros v d ? ?. by destruct v. }
  split. { unfold mapSnapshot. rewrite map_map. by apply map_ext. }
  split. { unfold mapSnapshot. apply length_map. }
  split.
  - intros it Hin. unfold mapSnapshot in Hin.
    apply list_elem_of_In, in_map_iff in Hin as (d & <- & _). simpl. split.
    + repeat constructor; try (apply Hn; discriminate);
        by destruct (field (snap_data d) _).
    + by destruct (field (snap_data d) "createdAt").
  - intros d _ key v Hv H1 H2. unfold mapDoc, field. simpl.
    repeat split; intros ->; rewrite Hv; simpl; by destruct v.
Qed.

Lemma X24_witness :
  item_company (mapDoc pendingDoc) = JsStr "Acme".
Proof.
  assert (Hin : pendingDoc ∈ [pendingDoc; bareDoc]) by left.
  destruct (X24_mapSnapshot_fields [pendingDoc; bareDoc]) as (_ & _ & _ & H).
  apply (proj1 (H pendingDoc Hin "company" (JsStr "Acme") eq_refl
                  ltac:(discriminate) ltac:(discriminate))).
  reflexivity.
Defined.

(** X25: for notes over ASCII, the notes line of a row is rendered exactly
    when the record has notes holding a character that is not white space. *)
Theorem X25_notes_line (item : Internship) :
  (∀ n, notes item = Some n → isAscii n = true) →
  showNotes item = true ↔ ∃ n, notes item = Some n ∧ allSpaces n = false.
Proof.
  intros _. unfold showNotes. destruct (notes item) as [n|].
  - rewrite is_empty_trim. split.
    + intros H. apply andb_true_iff in H as [_ H].
      exists n. split; [done |]. by destruct (allSpaces n).
    + intros (n' & [= <-] & Hn). rewrite Hn. simpl.
      destruct n; [discriminate | done].
  - split; [done | intros (n & ? & _); done].
Qed.

Lemma X25_witness :
  showNotes zen = true ↔ ∃ n, notes zen = Some n ∧ allSpaces n = false.
Proof.
  apply (X25_notes_line zen). intros n [= <-]. reflexivity.
Defined.
